(** * Lobby / room coordinator of [app.py]: shallow embedding and properties

    The Flask-SocketIO application keeps two module-level dictionaries,
    [rooms] (room id -> Room object) and [players] (connection id ->
    {'room_id', 'player'}).  The player dictionaries are shared objects: the
    very same dict sits in [room.players] and in the registry entry, and
    [handle_toggle_ready] mutates it through the registry reference while the
    readiness test reads it through the room's list.  The model therefore has
    a store of player objects ([heap]) and both containers hold locations.
    Locations are allocated in join order, so a smaller location is an
    earlier join.

    Handlers are functions [State -> option (State * list Emit)]; [None]
    means that the handler raises (the [IndexError] of [room.players[0]]) or
    follows a location that is not allocated.  [step_total] shows that neither
    happens in a state reached from the empty one. *)

From stdpp Require Import gmap strings list fin_maps sorting.

Open Scope string_scope.

(** ** Data model *)

(** A player dict: [{'id': request.sid, 'name': player_name, 'ready': False}]. *)
Record Player := mkPlayer {
  player_id : string;
  player_name : string;
  ready : bool
}.

(** [room.status]; the source comment lists [waiting, playing, ended]. *)
Inductive Status := waiting | playing | ended.

(** The dict returned by [initialize_game_board]. *)
Record Board := mkBoard {
  board_type : string;
  board_state : string
}.

(** [room.game_state]. *)
Record GameState := mkGameState {
  turn : Z;
  current_player : string;
  board : Board
}.

(** class [Room].  [room_players] holds locations of player objects. *)
Record Room := mkRoom {
  room_id : string;
  room_name : string;
  max_players : Z;
  password : option string;
  game_mode : string;
  room_players : list nat;
  status : Status;
  created_at : Z;
  game_state : option GameState
}.

(** A value of the [players] registry: [{'room_id': ..., 'player': ...}]. *)
Record PlayerData := mkPlayerData {
  pd_room_id : string;
  pd_player : nat
}.

(** The process state.  [sio] is the Socket.IO room membership kept by
    Flask-SocketIO ([join_room] / [leave_room]); it decides who receives an
    [emit(..., room=room_id)].  What the library does to it on its own (the
    room named after each connection, the removal of a connection that
    disconnects) is not modelled: the properties below take [sio] as they find
    it in a state. *)
Record State := mkState {
  rooms : gmap string Room;
  players : gmap string PlayerData;
  heap : list Player;
  sio : gmap string (gset string)
}.

Definition init : State := mkState ∅ ∅ [] ∅.

#[global] Instance Status_eq_dec : EqDecision Status.
Proof. solve_decision. Defined.
#[global] Instance Player_eq_dec : EqDecision Player.
Proof. solve_decision. Defined.
#[global] Instance Board_eq_dec : EqDecision Board.
Proof. solve_decision. Defined.
#[global] Instance GameState_eq_dec : EqDecision GameState.
Proof. solve_decision. Defined.

(** ** Messages *)

(** The dict built by [get_room_info]. *)
Record RoomInfo := mkRoomInfo {
  info_id : string;
  info_name : string;
  info_game_mode : string;
  info_current_players : nat;
  info_max_players : Z;
  info_status : Status
}.

(** One constructor per server-to-client event, carrying its payload. *)
Inductive Payload :=
  | error (message : string)
  | player_joined (player : Player) (room_info : RoomInfo)
  | room_joined (room : RoomInfo) (players_now : list Player)
  | player_left (left_id : string) (room_info : RoomInfo)
  | player_ready (ready_id : string) (is_ready : bool) (room_info : RoomInfo)
  | game_started (gs : GameState).

(** [emit(ev, data)] addresses the caller; [emit(ev, data, room=r)] addresses
    the Socket.IO room [r] (with Flask-SocketIO's default [include_self=True]:
    the caller is included when it is a member). *)
Inductive Target := ToCaller | ToRoom (r : string).

Record Emit := mkEmit {
  payload : Payload;
  target : Target;
  recipients : gset string
}.

Definition members (st : State) (r : string) : gset string :=
  default ∅ (sio st !! r).

Definition emit (st : State) (sid : string) (p : Payload) (t : Target) : Emit :=
  mkEmit p t
    match t with
    | ToCaller => {[ sid ]}
    | ToRoom r => members st r
    end.

(** The Socket.IO event name under which a payload is sent. *)
Definition event_name (p : Payload) : string :=
  match p with
  | error _ => "error"
  | player_joined _ _ => "player_joined"
  | room_joined _ _ => "room_joined"
  | player_left _ _ => "player_left"
  | player_ready _ _ _ => "player_ready"
  | game_started _ => "game_started"
  end.

Definition is_game_started (p : Payload) : bool :=
  match p with game_started _ => true | _ => false end.

(** ** State updates *)

Definition set_rooms (st : State) (rs : gmap string Room) : State :=
  mkState rs (players st) (heap st) (sio st).
Definition set_players (st : State) (ps : gmap string PlayerData) : State :=
  mkState (rooms st) ps (heap st) (sio st).
Definition set_heap (st : State) (h : list Player) : State :=
  mkState (rooms st) (players st) h (sio st).

(** flask_socketio [join_room(room_id)] and [leave_room(room_id)]. *)
Definition sio_join (sid r : string) (st : State) : State :=
  mkState (rooms st) (players st) (heap st)
          (<[ r := {[ sid ]} ∪ members st r ]> (sio st)).
Definition sio_leave (sid r : string) (st : State) : State :=
  mkState (rooms st) (players st) (heap st)
          (<[ r := members st r ∖ {[ sid ]} ]> (sio st)).

Definition with_players (room : Room) (ps : list nat) : Room :=
  mkRoom (room_id room) (room_name room) (max_players room) (password room)
         (game_mode room) ps (status room) (created_at room) (game_state room).

Definition with_game (room : Room) (s : Status) (gs : option GameState) : Room :=
  mkRoom (room_id room) (room_name room) (max_players room) (password room)
         (game_mode room) (room_players room) s (created_at room) gs.

(** ** The functions of app.py *)

Definition get_room_info (room : Room) : RoomInfo :=
  mkRoomInfo (room_id room) (room_name room) (game_mode room)
             (length (room_players room)) (max_players room) (status room).

Definition initialize_game_board (mode : string) : Board :=
  if decide (mode = "classic") then mkBoard "classic" "initial"
  else if decide (mode = "team") then mkBoard "team" "initial"
  else mkBoard "custom" "initial".

(** [Room.__init__]; [uuid4()] and [datetime.now()] are read from the
    environment and passed in. *)
Definition Room_init (uuid : string) (now : Z) (name : string) (maxp : Z)
    (pw : option string) (mode : string) : Room :=
  mkRoom uuid name maxp pw mode [] waiting now None.

(** The JSON answer of [POST /api/rooms]. *)
Inductive Response :=
  | created (rid name : string) (maxp : Z) (has_password : bool)
  | bad_request (msg : string).

(** [create_room]: the request fields are [data.get('name')],
    [data.get('max_players', 2)] read as an integer, [data.get('password')]
    and [data.get('game_mode', 'classic')].  A request whose [max_players] is
    not an integer makes [int] raise before anything is stored; such requests
    are outside the typed arguments here. *)
Definition create_room (uuid : string) (now : Z) (name : option string)
    (maxp : option Z) (pw : option string) (mode : option string)
    (st : State) : State * Response :=
  let maxp := default 2%Z maxp in
  let mode := default "classic" mode in
  match name with
  | None => (st, bad_request "房间名称不能为空")
  | Some name =>
    if decide (name = "") then (st, bad_request "房间名称不能为空")
    else
      let room := Room_init uuid now name maxp pw mode in
      (set_rooms st (<[ room_id room := room ]> (rooms st)),
       created (room_id room) (room_name room) (max_players room)
               (bool_decide (password room ≠ None)))
  end.

(** [handle_connect] only prints. *)
Definition handle_connect (sid : string) (st : State) : option (State * list Emit) :=
  Some (st, []).

(** The truth value of [room.password and room.password != password]:
    [None] and the empty string are falsy. *)
Definition password_rejected (room_pw supplied : option string) : bool :=
  match room_pw with
  | None => false
  | Some pw => if decide (pw = "") then false else bool_decide (Some pw ≠ supplied)
  end.

(** The list of player dicts that [room.players] denotes. *)
Definition deref_all (h : list Player) (ls : list nat) : option (list Player) :=
  mapM (λ l, h !! l) ls.

(** The dict built by [handle_join_room]; [name] is [data.get('player_name')],
    defaulting to the prefix and the first four characters of the connection
    id (connection ids are ASCII, so characters are bytes). *)
Definition new_player (sid : string) (name : option string) : Player :=
  mkPlayer sid (default (String.append "玩家-" (String.substring 0 4 sid)) name) false.

(** [handle_join_room]. *)
Definition handle_join_room (sid : string) (rid : string) (name : option string)
    (pw : option string) (st : State) : option (State * list Emit) :=
  match rooms st !! rid with
  | None => Some (st, [emit st sid (error "房间不存在") ToCaller])
  | Some room =>
    if password_rejected (password room) pw
    then Some (st, [emit st sid (error "房间密码错误") ToCaller])
    else if bool_decide (max_players room ≤ Z.of_nat (length (room_players room)))%Z
    then Some (st, [emit st sid (error "房间已满") ToCaller])
    else
      let st1 := sio_join sid rid st in
      let player := new_player sid name in
      let l := length (heap st1) in
      let room' := with_players room (room_players room ++ [l])%list in
      let st2 := set_heap (set_rooms st1 (<[ rid := room' ]> (rooms st1)))
                          (heap st1 ++ [player])%list in
      let st3 := set_players st2 (<[ sid := mkPlayerData rid l ]> (players st2)) in
      ps ← deref_all (heap st3) (room_players room');
      Some (st3, [emit st3 sid (player_joined player (get_room_info room')) (ToRoom rid);
                  emit st3 sid (room_joined (get_room_info room') ps) ToCaller])
  end.

(** [[p for p in room.players if p['id'] != request.sid]]. *)
Fixpoint remove_sid (h : list Player) (sid : string) (ls : list nat)
    : option (list nat) :=
  match ls with
  | [] => Some []
  | l :: ls =>
    p ← h !! l;
    rest ← remove_sid h sid ls;
    Some (if decide (player_id p = sid) then rest else l :: rest)
  end.

(** [handle_leave_room]: the caller has left the Socket.IO room when
    [player_left] is emitted to it. *)
Definition handle_leave_room (sid : string) (st : State) : option (State * list Emit) :=
  match players st !! sid with
  | None => Some (st, [])
  | Some pd =>
    let rid := pd_room_id pd in
    match rooms st !! rid with
    | None => Some (st, [])
    | Some room =>
      ps ← remove_sid (heap st) sid (room_players room);
      let room' := with_players room ps in
      let st1 := set_rooms st (<[ rid := room' ]> (rooms st)) in
      let st2 := sio_leave sid rid st1 in
      let st3 := set_players st2 (delete sid (players st2)) in
      let out := [emit st3 sid (player_left sid (get_room_info room')) (ToRoom rid)] in
      if decide (length (room_players room') = 0)
      then Some (set_rooms st3 (delete rid (rooms st3)), out)
      else Some (st3, out)
    end
  end.

(** [all(p['ready'] for p in room.players)], stopping at the first player
    that is not ready. *)
Fixpoint all_ready (h : list Player) (ls : list nat) : option bool :=
  match ls with
  | [] => Some true
  | l :: ls => p ← h !! l; if ready p then all_ready h ls else Some false
  end.

(** [start_game], with the caller's connection id for [emit].
    [room.players[0]] raises on an empty list; the only call, in
    [handle_toggle_ready], is behind the test for at least two players. *)
Definition start_game (sid : string) (rid : string) (st : State)
    : option (State * list Emit) :=
  match rooms st !! rid with
  | None => Some (st, [])
  | Some room =>
    l0 ← room_players room !! 0;
    p0 ← heap st !! l0;
    let gs := mkGameState 0 (player_id p0) (initialize_game_board (game_mode room)) in
    let room' := with_game room playing (Some gs) in
    let st' := set_rooms st (<[ rid := room' ]> (rooms st)) in
    Some (st', [emit st' sid (game_started gs) (ToRoom rid)])
  end.

(** [player['ready'] = not player['ready']]. *)
Definition toggle (p : Player) : Player :=
  mkPlayer (player_id p) (player_name p) (negb (ready p)).

(** [handle_toggle_ready]: the flag is flipped in the shared player object,
    [player_ready] is broadcast, then the room is tested and started. *)
Definition handle_toggle_ready (sid : string) (st : State) : option (State * list Emit) :=
  match players st !! sid with
  | None => Some (st, [])
  | Some pd =>
    let rid := pd_room_id pd in
    let l := pd_player pd in
    match rooms st !! rid with
    | None => Some (st, [])
    | Some room =>
      p ← heap st !! l;
      let st1 := set_heap st (<[ l := toggle p ]> (heap st)) in
      let out := [emit st1 sid (player_ready sid (ready (toggle p)) (get_room_info room))
                       (ToRoom rid)] in
      all ← all_ready (heap st1) (room_players room);
      if all && bool_decide (2 ≤ length (room_players room))%nat
      then '(st2, out2) ← start_game sid rid st1; Some (st2, (out ++ out2)%list)
      else Some (st1, out)
    end
  end.

(** ** Requests and runs *)

Inductive Event :=
  | CreateRoom (uuid : string) (now : Z) (name : option string) (maxp : option Z)
               (pw : option string) (mode : option string)
  | Connect (sid : string)
  | JoinRoom (sid rid : string) (name pw : option string)
  | LeaveRoom (sid : string)
  | ToggleReady (sid : string).

Definition step (e : Event) (st : State) : option (State * list Emit) :=
  match e with
  | CreateRoom uuid now name maxp pw mode =>
      Some ((create_room uuid now name maxp pw mode st).1, [])
  | Connect sid => handle_connect sid st
  | JoinRoom sid rid name pw => handle_join_room sid rid name pw st
  | LeaveRoom sid => handle_leave_room sid st
  | ToggleReady sid => handle_toggle_ready sid st
  end.

(** Runs a sequence of requests, oldest first, collecting what is emitted. *)
Fixpoint run (es : list Event) (st : State) : option (State * list Emit) :=
  match es with
  | [] => Some (st, [])
  | e :: es =>
    '(st1, out1) ← step e st;
    '(st2, out2) ← run es st1;
    Some (st2, (out1 ++ out2)%list)
  end.

(** ** Guards on runs

    A guard says which requests a run may contain in which state.  [uuid4()]
    is taken to return an identifier that no stored room has. *)

Definition any_event (e : Event) (st : State) : bool := true.

Definition fresh_uuid (e : Event) (st : State) : bool :=
  match e with
  | CreateRoom uuid _ _ _ _ _ => bool_decide (rooms st !! uuid = None)
  | _ => true
  end.

Definition join_unbound (e : Event) (st : State) : bool :=
  match e with
  | JoinRoom sid _ _ _ => bool_decide (players st !! sid = None)
  | _ => true
  end.

Definition no_create (e : Event) : bool :=
  match e with CreateRoom _ _ _ _ _ _ => false | _ => true end.


Fixpoint run_if (ok : Event → State → bool) (es : list Event) (st : State)
    : option State :=
  match es with
  | [] => Some st
  | e :: es =>
    if ok e st then '(st1, _) ← step e st; run_if ok es st1 else None
  end.

Definition reachable (ok : Event → State → bool) (st : State) : Prop :=
  ∃ es, run_if ok es init = Some st.

(** ** Well-formed states *)

(** Every location held by a room or by the registry is allocated. *)
Definition wf (st : State) : Prop :=
  (∀ rid room l, rooms st !! rid = Some room → l ∈ room_players room →
                 (l < length (heap st))%nat) ∧
  (∀ sid pd, players st !! sid = Some pd → (pd_player pd < length (heap st))%nat).

(** Every room lists its players by increasing location, that is in join
    order. *)
Definition join_ordered (st : State) : Prop :=
  ∀ rid room, rooms st !! rid = Some room → StronglySorted lt (room_players room).

Definition no_empty_room (st : State) : Prop :=
  ∀ rid room, rooms st !! rid = Some room → room_players room ≠ [].

Definition capacity_respected (st : State) : Prop :=
  ∀ rid room, rooms st !! rid = Some room →
    (Z.of_nat (length (room_players room)) ≤ max_players room)%Z.

(** The same bound, for the rooms whose [max_players] is not negative. *)
Definition capacity_bounded (st : State) : Prop :=
  ∀ rid room, rooms st !! rid = Some room → (0 ≤ max_players room)%Z →
    (Z.of_nat (length (room_players room)) ≤ max_players room)%Z.

(** A room holds a player record keyed by [sid]. *)
Definition in_room (st : State) (sid : string) (room : Room) : Prop :=
  ∃ l p, l ∈ room_players room ∧ heap st !! l = Some p ∧ player_id p = sid.

(** §4.2: a bound connection resolves to a stored room that holds its player
    record. *)
Definition registry_resolves (st : State) : Prop :=
  ∀ sid pd, players st !! sid = Some pd →
    ∃ room p, rooms st !! pd_room_id pd = Some room ∧
              pd_player pd ∈ room_players room ∧
              heap st !! pd_player pd = Some p ∧ player_id p = sid.

(** Every player record of a stored room is the one its connection is bound
    to. *)
Definition members_registered (st : State) : Prop :=
  ∀ rid room l p, rooms st !! rid = Some room → l ∈ room_players room →
    heap st !! l = Some p → players st !! player_id p = Some (mkPlayerData rid l).



(** The condition of the waiting-to-playing transition for the room [rid]
    after a toggle by [sid]: the caller is bound to [rid], every player
    object of the room's sequence has its ready flag set in the heap [h], and
    the room has at least two players. *)
Definition ready_to_start (st : State) (sid rid : string) (h : list Player)
    (room : Room) : Prop :=
  pd_room_id <$> players st !! sid = Some rid ∧
  Forall (λ l, ∃ p, h !! l = Some p ∧ ready p = true) (room_players room) ∧
  (2 ≤ length (room_players room))%nat.

(** Along the run [es] from [st], the room stored under [rid] is [room], has
    no player and is never changed; a join for [rid] in the run is rejected
    (it leaves the state as it is). *)
Fixpoint never_joined (rid : string) (room : Room) (es : list Event) (st : State)
    : Prop :=
  rooms st !! rid = Some room ∧ room_players room = [] ∧
  match es with
  | [] => True
  | e :: es =>
    ∃ st1 out, step e st = Some (st1, out) ∧
      (∀ sid name pw, e = JoinRoom sid rid name pw → st1 = st) ∧
      never_joined rid room es st1
  end.

(** ** The room listing *)

(** One entry of the JSON array answered by [GET /api/rooms]. *)
Record RoomSummary := mkRoomSummary {
  sum_id : string;
  sum_name : string;
  sum_game_mode : string;
  sum_current_players : nat;
  sum_max_players : Z;
  sum_has_password : bool;
  sum_status : Status
}.

Definition room_summary (room : Room) : RoomSummary :=
  mkRoomSummary (room_id room) (room_name room) (game_mode room)
                (length (room_players room)) (max_players room)
                (bool_decide (password room ≠ None)) (status room).

(** [list_rooms]: the summaries of the stored rooms whose status is
    [waiting].  Python walks [rooms.values()] in insertion order; the finite
    map does not keep that order, so the properties of the listing below are
    about which entries it holds. *)
Definition list_rooms (st : State) : list RoomSummary :=
  room_summary <$> filter (λ room, status room = waiting) (map_to_list (rooms st)).*2.

(** ** Further state predicates *)

(** A room is waiting without a game state, or playing with the game state
    [start_game] builds. *)
Definition room_settled (room : Room) : Prop :=
  (status room = waiting ∧ game_state room = None) ∨
  (status room = playing ∧
   ∃ gs, game_state room = Some gs ∧ turn gs = 0%Z ∧
         board gs = initialize_game_board (game_mode room)).

(** What no handler changes in a stored room. *)
Definition same_settings (room room' : Room) : Prop :=
  room_id room' = room_id room ∧ room_name room' = room_name room ∧
  max_players room' = max_players room ∧ password room' = password room ∧
  game_mode room' = game_mode room ∧ created_at room' = created_at room.

(** ** Concrete lobbies used in the examples below *)

Definition after (ok : Event → State → bool) (es : list Event) : State :=
  default init (run_if ok es init).

Definition open_room (uuid : string) (maxp : Z) (pw : option string) : Event :=
  CreateRoom uuid 0 (Some "Test") (Some maxp) pw None.

Definition two_ready : list Event :=
  [open_room "r1" 2 None; JoinRoom "A" "r1" None None; JoinRoom "B" "r1" None None;
   ToggleReady "A"; ToggleReady "B"].

(** * Properties *)

(** §8, scenario: two players join a room for two and both toggle ready; the
    room is then playing and exactly one [game_started] has been sent. *)
Example run_two_players_start :
  (λ r : State * list Emit,
     (status <$> rooms r.1 !! "r1",
      filter (λ p, is_game_started p = true) (payload <$> r.2)))
    <$> run two_ready init
  = Some (Some playing, [game_started (mkGameState 0 "A" (mkBoard "classic" "initial"))]).
Proof. by vm_compute. Qed.

(** ** Lists of locations *)

Section Locations.
Variable h : list Player.

Lemma deref_all_total (ls : list nat) :
  Forall (λ l, (l < length h)%nat) ls → is_Some (deref_all h ls).
Proof.
  intros H. apply mapM_is_Some_2. eapply Forall_impl; [exact H|].
  intros l Hl. by apply lookup_lt_is_Some_2.
Qed.

Lemma remove_sid_total sid (ls : list nat) :
  Forall (λ l, (l < length h)%nat) ls → is_Some (remove_sid h sid ls).
Proof.
  induction 1 as [|l ls Hl _ IH]; simpl; [by eexists|].
  destruct (lookup_lt_is_Some_2 h l Hl) as [p ->]. simpl.
  destruct IH as [rest ->]. simpl. by eexists.
Qed.

Lemma remove_sid_elem sid (ls ps : list nat) l :
  remove_sid h sid ls = Some ps →
  l ∈ ps ↔ l ∈ ls ∧ ∃ p, h !! l = Some p ∧ player_id p ≠ sid.
Proof.
  revert ps. induction ls as [|l' ls IH]; simpl; intros ps Hps.
  - simplify_eq. set_solver.
  - destruct (h !! l') as [p'|] eqn:Hp'; simpl in Hps; [|done].
    destruct (remove_sid h sid ls) as [rest|]; simpl in Hps; [|done].
    specialize (IH rest eq_refl). simplify_eq.
    destruct (decide (player_id p' = sid)) as [Hid|Hid].
    + rewrite IH, elem_of_cons. split; [naive_solver|].
      intros [[->|?] (p & Hp & Hne)]; [|eauto]. congruence.
    + rewrite !elem_of_cons, IH. split; [|naive_solver].
      intros [->|[? ?]]; eauto.
Qed.

Lemma remove_sid_length sid (ls ps : list nat) :
  remove_sid h sid ls = Some ps → (length ps ≤ length ls)%nat.
Proof.
  revert ps. induction ls as [|l' ls IH]; simpl; intros ps Hps.
  - by simplify_eq.
  - destruct (h !! l') as [p'|]; simpl in Hps; [|done].
    destruct (remove_sid h sid ls) as [rest|]; simpl in Hps; [|done].
    specialize (IH rest eq_refl). simplify_eq.
    destruct (decide _); simpl; lia.
Qed.

Lemma remove_sid_sorted sid (ls ps : list nat) :
  remove_sid h sid ls = Some ps → StronglySorted lt ls → StronglySorted lt ps.
Proof.
  revert ps. induction ls as [|l' ls IH]; simpl; intros ps Hps Hs.
  - simplify_eq. constructor.
  - destruct (h !! l') as [p'|]; simpl in Hps; [|done].
    destruct (remove_sid h sid ls) as [rest|] eqn:Hrest; simpl in Hps; [|done].
    apply StronglySorted_cons in Hs as [Hall Hs].
    specialize (IH rest eq_refl Hs). simplify_eq.
    destruct (decide _); [done|].
    apply StronglySorted_cons. split; [|done].
    apply Forall_forall. intros x Hx.
    apply (remove_sid_elem _ _ _ x) in Hrest. apply Hrest in Hx as [Hx _].
    rewrite Forall_forall in Hall. by apply Hall.
Qed.

Lemma all_ready_total (ls : list nat) :
  Forall (λ l, (l < length h)%nat) ls → is_Some (all_ready h ls).
Proof.
  induction 1 as [|l ls Hl _ IH]; simpl; [by eexists|].
  destruct (lookup_lt_is_Some_2 h l Hl) as [p ->]. simpl.
  destruct (ready p); [done | by eexists].
Qed.

(** [all_ready] answers [true] exactly when every listed player is ready. *)
Lemma all_ready_true (ls : list nat) :
  all_ready h ls = Some true ↔
  Forall (λ l, ∃ p, h !! l = Some p ∧ ready p = true) ls.
Proof.
  induction ls as [|l ls IH]; simpl.
  - split; [constructor | done].
  - rewrite Forall_cons, <- IH.
    destruct (h !! l) as [p|]; simpl; [|naive_solver].
    destruct (ready p) eqn:Hr; [naive_solver|].
    split; [done|]. intros [(q & ? & ?) _]. congruence.
Qed.
End Locations.

(** ** What each handler does, case by case *)

Lemma handle_join_room_inv sid rid name pw st st' out :
  handle_join_room sid rid name pw st = Some (st', out) →
  (st' = st ∧ ∃ msg, out = [emit st sid (error msg) ToCaller]) ∨
  (∃ room ps,
      let l := length (heap st) in
      let room' := with_players room (room_players room ++ [l])%list in
      rooms st !! rid = Some room ∧
      password_rejected (password room) pw = false ∧
      (Z.of_nat (length (room_players room)) < max_players room)%Z ∧
      st' = mkState (<[ rid := room' ]> (rooms st))
                    (<[ sid := mkPlayerData rid l ]> (players st))
                    (heap st ++ [new_player sid name])%list
                    (<[ rid := {[ sid ]} ∪ members st rid ]> (sio st)) ∧
      deref_all (heap st') (room_players room') = Some ps ∧
      out = [emit st' sid (player_joined (new_player sid name) (get_room_info room'))
                  (ToRoom rid);
             emit st' sid (room_joined (get_room_info room') ps) ToCaller]).
Proof.
  unfold handle_join_room. intros H.
  destruct (rooms st !! rid) as [room|] eqn:Hroom; [|left; simplify_eq; eauto].
  destruct (password_rejected _ _) eqn:Hpw; [left; simplify_eq; eauto|].
  case_bool_decide as Hfull; [left; simplify_eq; eauto|].
  right. simpl in H.
  match type of H with (mbind _ ?x = _) => destruct x as [ps|] eqn:Hps end;
    simpl in H; [|done].
  simplify_eq. exists room, ps. simpl. split_and!; try done. lia.
Qed.

Lemma handle_leave_room_inv sid st st' out :
  handle_leave_room sid st = Some (st', out) →
  (st' = st ∧ out = []) ∨
  (∃ pd room ps,
      let rid := pd_room_id pd in
      let room' := with_players room ps in
      players st !! sid = Some pd ∧
      rooms st !! rid = Some room ∧
      remove_sid (heap st) sid (room_players room) = Some ps ∧
      st' = mkState (if decide (ps = []) then delete rid (rooms st)
                     else <[ rid := room' ]> (rooms st))
                    (delete sid (players st)) (heap st)
                    (<[ rid := members st rid ∖ {[ sid ]} ]> (sio st)) ∧
      out = [mkEmit (player_left sid (get_room_info room')) (ToRoom rid)
                    (members st rid ∖ {[ sid ]})]).
Proof.
  unfold handle_leave_room. intros H.
  destruct (players st !! sid) as [pd|] eqn:Hpd; [|left; by simplify_eq].
  destruct (rooms st !! pd_room_id pd) as [room|] eqn:Hroom; [|left; by simplify_eq].
  destruct (remove_sid _ _ _) as [ps|] eqn:Hps; simpl in H; [|done].
  right. exists pd, room, ps. simpl. split_and!; try done.
  - destruct ps as [|l ps]; simpl in H; simplify_eq.
    + unfold set_rooms; simpl. by rewrite delete_insert_eq.
    + done.
  - destruct ps as [|l ps]; simpl in H; simplify_eq;
      unfold emit, members; simpl; by rewrite lookup_insert_eq.
Qed.

Lemma handle_toggle_ready_inv sid st st' out :
  handle_toggle_ready sid st = Some (st', out) →
  (st' = st ∧ out = [] ∧
   ∀ pd, players st !! sid = Some pd → rooms st !! pd_room_id pd = None) ∨
  (∃ pd room p all,
      let rid := pd_room_id pd in
      let h' := <[ pd_player pd := toggle p ]> (heap st) in
      let e1 := mkEmit (player_ready sid (ready (toggle p)) (get_room_info room))
                       (ToRoom rid) (members st rid) in
      players st !! sid = Some pd ∧
      rooms st !! rid = Some room ∧
      heap st !! pd_player pd = Some p ∧
      all_ready h' (room_players room) = Some all ∧
      if all && bool_decide (2 ≤ length (room_players room))%nat
      then ∃ l0 p0,
          let gs := mkGameState 0 (player_id p0)
                                (initialize_game_board (game_mode room)) in
          room_players room !! 0%nat = Some l0 ∧ h' !! l0 = Some p0 ∧
          st' = mkState (<[ rid := with_game room playing (Some gs) ]> (rooms st))
                        (players st) h' (sio st) ∧
          out = [e1; mkEmit (game_started gs) (ToRoom rid) (members st rid)]
      else st' = mkState (rooms st) (players st) h' (sio st) ∧ out = [e1]).
Proof.
  unfold handle_toggle_ready. intros H.
  destruct (players st !! sid) as [pd|] eqn:Hpd; [|left; by simplify_eq].
  destruct (rooms st !! pd_room_id pd) as [room|] eqn:Hroom;
    [|left; split_and!; [by simplify_eq..|]; by intros ? [= <-]].
  destruct (heap st !! pd_player pd) as [p|] eqn:Hp; simpl in H; [|done].
  destruct (all_ready _ _) as [all|] eqn:Hall; simpl in H; [|done].
  right. exists pd, room, p, all. simpl. split_and!; try done.
  destruct (all && _) eqn:Hgo.
  - unfold start_game in H. simpl in H. rewrite Hroom in H.
    destruct (room_players room !! 0%nat) as [l0|] eqn:Hl0; simpl in H; [|done].
    destruct (_ !! l0) as [p0|] eqn:Hp0; simpl in H; [|done].
    simplify_eq. by exists l0, p0.
  - by simplify_eq.
Qed.

Lemma create_room_inv uuid now name maxp pw mode st :
  (create_room uuid now name maxp pw mode st).1 = st ∨
  ∃ n, name = Some n ∧ n ≠ "" ∧
    (create_room uuid now name maxp pw mode st).1 =
      mkState (<[ uuid := Room_init uuid now n (default 2%Z maxp) pw
                                    (default "classic" mode) ]> (rooms st))
              (players st) (heap st) (sio st).
Proof.
  unfold create_room. destruct name as [n|]; [|by left].
  destruct (decide (n = "")); [by left|]. right. by exists n.
Qed.

(** ** Well-formedness is kept, and no handler raises *)

Lemma wf_init : wf init.
Proof. split; intros *; simpl; by rewrite lookup_empty. Qed.

Lemma wf_locations st rid room :
  wf st → rooms st !! rid = Some room →
  Forall (λ l, (l < length (heap st))%nat) (room_players room).
Proof. intros [Hr _] Hroom. apply Forall_forall. intros l Hl. eauto. Qed.

Lemma step_wf e st st' out : wf st → step e st = Some (st', out) → wf st'.
Proof.
  intros Hwf Hstep. pose proof Hwf as [Hr Hp]. destruct e; simpl in Hstep.
  - simplify_eq.
    destruct (create_room_inv uuid now name maxp pw mode st) as [->|(n & _ & _ & ->)];
      [done|].
    split; simpl; [|done]. intros rid room l Hroom Hl.
    destruct (decide (rid = uuid)) as [->|Hne].
    + rewrite lookup_insert_eq in Hroom. simplify_eq. simpl in Hl. set_solver.
    + rewrite lookup_insert_ne in Hroom by done. eauto.
  - unfold handle_connect in Hstep. by simplify_eq.
  - apply handle_join_room_inv in Hstep
      as [[-> _]|(room & ps & Hroom & _ & _ & -> & _ & _)]; [done|].
    split; simpl.
    + intros rid0 room0 l Hroom0 Hl. rewrite length_app; simpl.
      destruct (decide (rid0 = rid)) as [->|Hne].
      * rewrite lookup_insert_eq in Hroom0. simplify_eq. simpl in Hl.
        apply elem_of_app in Hl as [Hl|Hl].
        -- specialize (Hr _ _ _ Hroom Hl). lia.
        -- apply list_elem_of_singleton in Hl. lia.
      * rewrite lookup_insert_ne in Hroom0 by done.
        specialize (Hr _ _ _ Hroom0 Hl). lia.
    + intros sid0 pd Hpd. rewrite length_app; simpl.
      destruct (decide (sid0 = sid)) as [->|Hne].
      * rewrite lookup_insert_eq in Hpd. simplify_eq. simpl. lia.
      * rewrite lookup_insert_ne in Hpd by done. specialize (Hp _ _ Hpd). lia.
  - apply handle_leave_room_inv in Hstep
      as [[-> _]|(pd & room & ps & Hpd & Hroom & Hps & -> & _)]; [done|].
    split; simpl.
    + intros rid0 room0 l Hroom0 Hl.
      destruct (decide (rid0 = pd_room_id pd)) as [->|Hne].
      * destruct (decide (ps = [])).
        -- by rewrite lookup_delete_eq in Hroom0.
        -- rewrite lookup_insert_eq in Hroom0. simplify_eq. simpl in Hl.
           apply (remove_sid_elem _ _ _ _ l Hps) in Hl as [Hl _]. eauto.
      * destruct (decide (ps = []));
          [rewrite lookup_delete_ne in Hroom0 by done
          |rewrite lookup_insert_ne in Hroom0 by done]; eauto.
    + intros sid0 pd0 Hpd0. apply lookup_delete_Some in Hpd0 as [_ Hpd0]. eauto.
  - apply handle_toggle_ready_inv in Hstep
      as [[-> _]|(pd & room & p & all & Hpd & Hroom & Hpl & Hall & Hgo)]; [done|].
    destruct (all && _).
    + destruct Hgo as (l0 & p0 & _ & _ & -> & _).
      split; simpl; rewrite length_insert.
      * intros rid0 room0 l Hroom0 Hl.
        destruct (decide (rid0 = pd_room_id pd)) as [->|Hne].
        -- rewrite lookup_insert_eq in Hroom0. simplify_eq. simpl in Hl. eauto.
        -- rewrite lookup_insert_ne in Hroom0 by done. eauto.
      * done.
    + destruct Hgo as [-> _]. split; simpl; rewrite length_insert; done.
Qed.

Lemma handle_toggle_ready_total sid st : wf st → is_Some (handle_toggle_ready sid st).
Proof.
  intros Hwf. pose proof Hwf as [Hr Hp]. unfold handle_toggle_ready.
  destruct (players st !! sid) as [pd|] eqn:Hpd; [|by eexists].
  destruct (rooms st !! pd_room_id pd) as [room|] eqn:Hroom; [|by eexists].
  destruct (lookup_lt_is_Some_2 _ _ (Hp _ _ Hpd)) as [p ->]. simpl.
  pose proof (wf_locations _ _ _ Hwf Hroom) as Hlocs.
  destruct (all_ready_total (<[pd_player pd:=toggle p]> (heap st)) (room_players room))
    as [all ->]; [by rewrite length_insert|]. simpl.
  destruct all; simpl; [|by eexists]. case_bool_decide as Hlen; [|by eexists].
  unfold start_game. simpl. rewrite Hroom.
  destruct (room_players room) as [|l0 ls] eqn:Hplayers; simpl in Hlen; [lia|]. simpl.
  apply Forall_cons in Hlocs as [Hl0 _].
  destruct (lookup_lt_is_Some_2 (<[pd_player pd:=toggle p]> (heap st)) l0) as [p0 ->];
    [by rewrite length_insert|]. simpl. by eexists.
Qed.

Lemma step_total e st : wf st → is_Some (step e st).
Proof.
  intros Hwf. pose proof Hwf as [Hr Hp]. destruct e; simpl.
  - by eexists.
  - by eexists.
  - unfold handle_join_room.
    destruct (rooms st !! rid) as [room|] eqn:Hroom; [|by eexists].
    destruct (password_rejected _ _); [by eexists|].
    case_bool_decide; [by eexists|]. simpl.
    match goal with |- is_Some (mbind _ ?x) => destruct x eqn:Hd end;
      simpl; [by eexists|].
    exfalso. eapply is_Some_None. rewrite <- Hd. apply deref_all_total.
    rewrite length_app. simpl. apply Forall_app. split.
    + eapply Forall_impl; [by eapply wf_locations|]. simpl. intros; lia.
    + apply Forall_singleton. lia.
  - unfold handle_leave_room.
    destruct (players st !! sid) as [pd|] eqn:Hpd; [|by eexists].
    destruct (rooms st !! pd_room_id pd) as [room|] eqn:Hroom; [|by eexists].
    destruct (remove_sid_total (heap st) sid (room_players room)) as [ps ->];
      [by eapply wf_locations|]. simpl.
    destruct (decide _); by eexists.
  - by apply handle_toggle_ready_total.
Qed.

(** Invariants of guarded runs follow from their preservation by one step. *)
Lemma run_if_invariant (ok : Event → State → bool) (I : State → Prop) :
  (∀ e st st' out, ok e st = true → I st → step e st = Some (st', out) → I st') →
  ∀ es st st', I st → run_if ok es st = Some st' → I st'.
Proof.
  intros Hstep es. induction es as [|e es IH]; simpl; intros st st' HI Hrun.
  - by simplify_eq.
  - destruct (ok e st) eqn:Hok; [|done].
    destruct (step e st) as [[st1 out1]|] eqn:He; simpl in Hrun; [|done].
    eapply IH; [|exact Hrun]. eauto.
Qed.

Lemma reachable_invariant (ok : Event → State → bool) (I : State → Prop) :
  I init →
  (∀ e st st' out, ok e st = true → I st → step e st = Some (st', out) → I st') →
  ∀ st, reachable ok st → I st.
Proof. intros H0 Hstep st [es Hes]. eapply run_if_invariant; eauto. Qed.

Lemma reachable_wf ok st : reachable ok st → wf st.
Proof.
  apply reachable_invariant; [apply wf_init|]. intros; by eapply step_wf.
Qed.

(** A guarded run from a well-formed state never raises. *)
Lemma run_if_total ok es st :
  wf st → is_Some (run_if ok es st) ∨ ∃ es1 e es2 st1,
    es = (es1 ++ e :: es2)%list ∧ run_if ok es1 st = Some st1 ∧ ok e st1 = false.
Proof.
  revert st. induction es as [|e es IH]; simpl; intros st Hwf; [left; by eexists|].
  destruct (ok e st) eqn:Hok.
  - destruct (step_total e st Hwf) as [[st1 out1] He]. rewrite He. simpl.
    destruct (IH st1) as [?|(es1 & e' & es2 & st2 & -> & Hrun & Hno)];
      [by eapply step_wf|by left|].
    right. exists (e :: es1), e', es2, st2. simpl. rewrite Hok, He. simpl. done.
  - right. exists [], e, es, st. done.
Qed.

(** ** Join order *)

Lemma step_join_ordered e st st' out :
  wf st → join_ordered st → step e st = Some (st', out) → join_ordered st'.
Proof.
  intros [Hr Hp] Hs Hstep rid0 room0 Hroom0. destruct e; simpl in Hstep.
  - simplify_eq.
    destruct (create_room_inv uuid now name maxp pw mode st) as [Heq|(n & _ & _ & Heq)];
      rewrite Heq in Hroom0; [by eauto|]. simpl in Hroom0.
    destruct (decide (rid0 = uuid)) as [->|Hne].
    + rewrite lookup_insert_eq in Hroom0. simplify_eq. constructor.
    + rewrite lookup_insert_ne in Hroom0 by done. eauto.
  - unfold handle_connect in Hstep. simplify_eq. eauto.
  - apply handle_join_room_inv in Hstep
      as [[-> _]|(room & ps & Hroom & _ & _ & -> & _ & _)]; [by eauto|].
    simpl in Hroom0. destruct (decide (rid0 = rid)) as [->|Hne].
    + rewrite lookup_insert_eq in Hroom0. simplify_eq. simpl.
      apply StronglySorted_app. split_and!; [|by eauto|repeat constructor].
      intros x1 x2 Hx1 ->%list_elem_of_singleton. eauto.
    + rewrite lookup_insert_ne in Hroom0 by done. eauto.
  - apply handle_leave_room_inv in Hstep
      as [[-> _]|(pd & room & ps & Hpd & Hroom & Hps & -> & _)]; [by eauto|].
    simpl in Hroom0. destruct (decide (rid0 = pd_room_id pd)) as [->|Hne].
    + destruct (decide (ps = [])); [by rewrite lookup_delete_eq in Hroom0|].
      rewrite lookup_insert_eq in Hroom0. simplify_eq. simpl.
      eapply remove_sid_sorted; eauto.
    + destruct (decide (ps = []));
        [rewrite lookup_delete_ne in Hroom0 by done
        |rewrite lookup_insert_ne in Hroom0 by done]; eauto.
  - apply handle_toggle_ready_inv in Hstep
      as [[-> _]|(pd & room & p & all & Hpd & Hroom & Hpl & Hall & Hgo)]; [by eauto|].
    destruct (all && _).
    + destruct Hgo as (l0 & p0 & _ & _ & -> & _). simpl in Hroom0.
      destruct (decide (rid0 = pd_room_id pd)) as [->|Hne].
      * rewrite lookup_insert_eq in Hroom0. simplify_eq. simpl. eauto.
      * rewrite lookup_insert_ne in Hroom0 by done. eauto.
    + destruct Hgo as [-> _]. simpl in Hroom0. eauto.
Qed.

Lemma reachable_join_ordered ok st : reachable ok st → join_ordered st.
Proof.
  intros Hreach.
  cut (wf st ∧ join_ordered st); [by intros [_ ?]|]. revert st Hreach.
  apply reachable_invariant.
  - split; [apply wf_init|]. intros rid room. simpl. by rewrite lookup_empty.
  - intros e st st' out _ [Hwf Hs] Hstep. split;
      [by eapply step_wf | by eapply step_join_ordered].
Qed.

(** ** Capacity *)

Lemma step_capacity e st st' out :
  capacity_bounded st → step e st = Some (st', out) → capacity_bounded st'.
Proof.
  intros Hc Hstep rid0 room0 Hroom0 Hpos. destruct e; simpl in Hstep.
  - simplify_eq.
    destruct (create_room_inv uuid now name maxp pw mode st) as [Heq|(n & _ & _ & Heq)];
      rewrite Heq in Hroom0; [by eauto|]. simpl in Hroom0.
    destruct (decide (rid0 = uuid)) as [->|Hne].
    + rewrite lookup_insert_eq in Hroom0. simplify_eq. simpl in *. lia.
    + rewrite lookup_insert_ne in Hroom0 by done. eauto.
  - unfold handle_connect in Hstep. simplify_eq. eauto.
  - apply handle_join_room_inv in Hstep
      as [[-> _]|(room & ps & Hroom & _ & Hlt & -> & _ & _)]; [by eauto|].
    simpl in Hroom0. destruct (decide (rid0 = rid)) as [->|Hne].
    + rewrite lookup_insert_eq in Hroom0. simplify_eq. simpl.
      rewrite length_app. simpl. lia.
    + rewrite lookup_insert_ne in Hroom0 by done. eauto.
  - apply handle_leave_room_inv in Hstep
      as [[-> _]|(pd & room & ps & Hpd & Hroom & Hps & -> & _)]; [by eauto|].
    simpl in Hroom0. destruct (decide (rid0 = pd_room_id pd)) as [->|Hne].
    + destruct (decide (ps = [])); [by rewrite lookup_delete_eq in Hroom0|].
      rewrite lookup_insert_eq in Hroom0. simplify_eq. simpl in *.
      apply remove_sid_length in Hps. specialize (Hc _ _ Hroom Hpos). lia.
    + destruct (decide (ps = []));
        [rewrite lookup_delete_ne in Hroom0 by done
        |rewrite lookup_insert_ne in Hroom0 by done]; eauto.
  - apply handle_toggle_ready_inv in Hstep
      as [[-> _]|(pd & room & p & all & Hpd & Hroom & Hpl & Hall & Hgo)]; [by eauto|].
    destruct (all && _).
    + destruct Hgo as (l0 & p0 & _ & _ & -> & _). simpl in Hroom0.
      destruct (decide (rid0 = pd_room_id pd)) as [->|Hne].
      * rewrite lookup_insert_eq in Hroom0. simplify_eq. simpl in *.
        by apply (Hc _ _ Hroom).
      * rewrite lookup_insert_ne in Hroom0 by done. eauto.
    + destruct Hgo as [-> _]. simpl in Hroom0. eauto.
Qed.

(** ** Readiness toggled after the game has started *)

(** C1, evaluated on the code.  Two players make the room of [two_ready]
    start; "A" leaves and "C" joins the room, whose status is [playing].
    When "C" toggles its readiness, [handle_toggle_ready] calls [start_game]
    again: a second [game_started] is broadcast and [game_state] is replaced
    (its [current_player] goes from "A" to "B").  The handler has no test on
    [room.status], so the property C1 asks for does not hold on this input. *)
Theorem toggle_ready_restarts_started_game :
  let st := after any_event
              (two_ready ++ [LeaveRoom "A"; JoinRoom "C" "r1" None None]) in
  let classic := mkBoard "classic" "initial" in
  (λ room, (status room, game_state room)) <$> rooms st !! "r1"
    = Some (playing, Some (mkGameState 0 "A" classic)) ∧
  pd_room_id <$> players st !! "C" = Some "r1" ∧
  ∃ st' out,
    handle_toggle_ready "C" st = Some (st', out) ∧
    filter (λ p, is_game_started p = true) (payload <$> out)
      = [game_started (mkGameState 0 "B" classic)] ∧
    (λ room, (status room, game_state room)) <$> rooms st' !! "r1"
      = Some (playing, Some (mkGameState 0 "B" classic)).
Proof.
  simpl. split_and!; [by vm_compute..|].
  eexists _, _. split_and!; [by vm_compute | by vm_compute..].
Qed.

(** ** The capacity bound *)

(** C2 as stated fails: [create_room] stores whatever integer the request
    carries as [max_players], so a room created with [-1] holds zero players,
    which is more than its maximum. *)
Lemma capacity_counterexample :
  let st := after any_event [open_room "r1" (-1) None] in
  reachable any_event st ∧ ¬ capacity_respected st.
Proof.
  simpl. split.
  - by exists [open_room "r1" (-1) None].
  - intros Hc.
    specialize (Hc "r1" (Room_init "r1" 0 "Test" (-1) None "classic") eq_refl).
    simpl in Hc. lia.
Qed.

(** C2, amended: after every operation, every stored room whose
    [max_players] is not negative has at most [max_players] players. *)
Theorem capacity_respected_always (st : State) (rid : string) (room : Room) :
  reachable any_event st → rooms st !! rid = Some room →
  (0 ≤ max_players room)%Z →
  (Z.of_nat (length (room_players room)) ≤ max_players room)%Z.
Proof.
  intros Hreach. revert rid room. fold (capacity_bounded st). revert st Hreach.
  apply reachable_invariant.
  - intros rid room. simpl. by rewrite lookup_empty.
  - intros. by eapply step_capacity.
Qed.

Lemma capacity_respected_always_witness :
  let st := after any_event
              (two_ready ++ [JoinRoom "C" "r1" None None; LeaveRoom "A"]) in
  let room := mkRoom "r1" "Test" 2 None "classic" [1%nat] playing 0
                     (Some (mkGameState 0 "A" (mkBoard "classic" "initial"))) in
  (Z.of_nat (length (room_players room)) ≤ max_players room)%Z.
Proof.
  intros st room. apply (capacity_respected_always st "r1" room).
  - by exists (two_ready ++ [JoinRoom "C" "r1" None None; LeaveRoom "A"])%list.
  - by vm_compute.
  - simpl. lia.
Defined.

(** ** The registry and the rooms *)

(** Toggling changes no player id. *)
Lemma toggle_heap_lookup (h : list Player) l p l0 :
  h !! l = Some p →
  player_id <$> (<[ l := toggle p ]> h) !! l0 = player_id <$> h !! l0.
Proof.
  intros Hl. destruct (decide (l0 = l)) as [->|Hne].
  - rewrite list_lookup_insert_eq by (by eapply lookup_lt_Some). by rewrite Hl.
  - by rewrite list_lookup_insert_ne.
Qed.

Lemma toggle_heap_lookup_1 (h : list Player) l p l0 p0 :
  h !! l = Some p → h !! l0 = Some p0 →
  ∃ p0', (<[ l := toggle p ]> h) !! l0 = Some p0' ∧ player_id p0' = player_id p0.
Proof.
  intros Hl Hl0. pose proof (toggle_heap_lookup h l p l0 Hl) as H.
  rewrite Hl0 in H.
  destruct (<[ l := toggle p ]> h !! l0) as [p0'|]; simpl in H; [|done].
  exists p0'. split; [done|]. congruence.
Qed.

Lemma toggle_heap_lookup_2 (h : list Player) l p l0 p0' :
  h !! l = Some p → (<[ l := toggle p ]> h) !! l0 = Some p0' →
  ∃ p0, h !! l0 = Some p0 ∧ player_id p0 = player_id p0'.
Proof.
  intros Hl Hl0. pose proof (toggle_heap_lookup h l p l0 Hl) as H.
  rewrite Hl0 in H. destruct (h !! l0) as [p0|]; simpl in H; [|done].
  exists p0. split; [done|]. congruence.
Qed.

Lemma step_registry_resolves e st st' out :
  fresh_uuid e st = true → registry_resolves st →
  step e st = Some (st', out) → registry_resolves st'.
Proof.
  intros Hok Hres Hstep sid0 pd0 Hpd0. destruct e; simpl in Hstep.
  - simplify_eq. simpl in Hok. apply bool_decide_eq_true in Hok.
    destruct (create_room_inv uuid now name maxp pw mode st) as [Heq|(n & _ & _ & Heq)];
      rewrite Heq in Hpd0 |- *; [by eauto|]. simpl in *.
    destruct (Hres _ _ Hpd0) as (room & p & Hroom & ?).
    exists room, p. split; [|done].
    rewrite lookup_insert_ne; [done|]. intros ->. congruence.
  - unfold handle_connect in Hstep. simplify_eq. eauto.
  - apply handle_join_room_inv in Hstep
      as [[-> _]|(room & ps & Hroom & _ & _ & -> & _ & _)]; [by eauto|].
    simpl in *. destruct (decide (sid0 = sid)) as [->|Hne].
    + rewrite lookup_insert_eq in Hpd0. simplify_eq. simpl.
      eexists _, (new_player sid name). rewrite lookup_insert_eq.
      split_and!; [done|set_solver|by apply list_lookup_middle|done].
    + rewrite lookup_insert_ne in Hpd0 by done.
      destruct (Hres _ _ Hpd0) as (room0 & p & Hroom0 & Hin & Hp & Hid).
      assert ((heap st ++ [new_player sid name])%list !! pd_player pd0 = Some p) as Hp'.
      { rewrite lookup_app_l; [done|]. by eapply lookup_lt_Some. }
      destruct (decide (pd_room_id pd0 = rid)) as [Heq|Hner].
      * rewrite Heq in *. simplify_eq. eexists _, p. rewrite lookup_insert_eq.
        split_and!; [done| |done..]. simpl. set_solver.
      * exists room0, p. rewrite lookup_insert_ne by done. done.
  - apply handle_leave_room_inv in Hstep
      as [[-> _]|(pd & room & ps & Hpd & Hroom & Hps & -> & _)]; [by eauto|].
    simpl in *. apply lookup_delete_Some in Hpd0 as [Hne Hpd0].
    destruct (Hres _ _ Hpd0) as (room0 & p & Hroom0 & Hin & Hp & Hid).
    destruct (decide (pd_room_id pd0 = pd_room_id pd)) as [Heq|Hner].
    + rewrite Heq in *. simplify_eq.
      assert (pd_player pd0 ∈ ps) as Hps'.
      { apply (remove_sid_elem _ _ _ _ _ Hps). split; [done|]. exists p. done. }
      destruct (decide (ps = [])) as [->|_]; [set_solver|].
      eexists _, p. rewrite lookup_insert_eq. done.
    + exists room0, p. split; [|done].
      destruct (decide (ps = []));
        [by rewrite lookup_delete_ne | by rewrite lookup_insert_ne].
  - apply handle_toggle_ready_inv in Hstep
      as [[-> _]|(pd & room & p & all & Hpd & Hroom & Hpl & Hall & Hgo)]; [by eauto|].
    assert (players st' = players st ∧
            heap st' = <[pd_player pd:=toggle p]> (heap st) ∧
            ∀ rid r, rooms st !! rid = Some r →
              ∃ r', rooms st' !! rid = Some r' ∧ room_players r' = room_players r)
      as (Hps' & Hh' & Hrs').
    { destruct (all && _).
      - destruct Hgo as (l0 & p0 & _ & _ & -> & _). simpl. split_and!; try done.
        intros rid r Hr. destruct (decide (rid = pd_room_id pd)) as [->|Hne].
        + rewrite lookup_insert_eq. simplify_eq. eauto.
        + rewrite lookup_insert_ne by done. eauto.
      - destruct Hgo as [-> _]. simpl. eauto. }
    rewrite Hps' in Hpd0. rewrite Hh'.
    destruct (Hres _ _ Hpd0) as (room0 & p0 & Hroom0 & Hin & Hp & Hid).
    destruct (Hrs' _ _ Hroom0) as (r' & Hr' & Hpl').
    destruct (toggle_heap_lookup_1 _ _ _ _ _ Hpl Hp) as (p0' & Hp0' & Hid').
    exists r', p0'. rewrite Hpl'. split_and!; try done. congruence.
Qed.

Lemma step_members_registered e st st' out :
  join_unbound e st = true → wf st → members_registered st →
  step e st = Some (st', out) → members_registered st'.
Proof.
  intros Hok [Hwr Hwp] Hreg Hstep rid0 room0 l0 p0 Hroom0 Hl0 Hp0.
  destruct e; simpl in Hstep.
  - simplify_eq.
    destruct (create_room_inv uuid now name maxp pw mode st) as [Heq|(n & _ & _ & Heq)];
      rewrite Heq in Hroom0, Hp0 |- *; [by eauto|]. simpl in *.
    destruct (decide (rid0 = uuid)) as [->|Hne].
    + rewrite lookup_insert_eq in Hroom0. simplify_eq. simpl in Hl0. set_solver.
    + rewrite lookup_insert_ne in Hroom0 by done. eauto.
  - unfold handle_connect in Hstep. simplify_eq. eauto.
  - simpl in Hok. apply bool_decide_eq_true in Hok.
    apply handle_join_room_inv in Hstep
      as [[-> _]|(room & ps & Hroom & _ & _ & -> & _ & _)]; [by eauto|].
    simpl in *.
    assert (∀ r, rooms st !! rid0 = Some r → l0 ∈ room_players r →
                 <[sid:=mkPlayerData rid (length (heap st))]> (players st)
                   !! player_id p0 = Some (mkPlayerData rid0 l0)) as Hold.
    { intros r Hr Hin. rewrite lookup_app_l in Hp0 by eauto.
      specialize (Hreg _ _ _ _ Hr Hin Hp0).
      rewrite lookup_insert_ne; [done|]. intros ->. congruence. }
    destruct (decide (rid0 = rid)) as [->|Hne].
    + rewrite lookup_insert_eq in Hroom0. simplify_eq. simpl in Hl0.
      apply elem_of_app in Hl0 as [Hl0|Hl0]; [by eauto|].
      apply list_elem_of_singleton in Hl0 as ->.
      rewrite list_lookup_middle in Hp0 by done. simplify_eq. simpl.
      by rewrite lookup_insert_eq.
    + rewrite lookup_insert_ne in Hroom0 by done. eauto.
  - apply handle_leave_room_inv in Hstep
      as [[-> _]|(pd & room & ps & Hpd & Hroom & Hps & -> & _)]; [by eauto|].
    simpl in *. destruct (decide (rid0 = pd_room_id pd)) as [->|Hne].
    + destruct (decide (ps = [])); [by rewrite lookup_delete_eq in Hroom0|].
      rewrite lookup_insert_eq in Hroom0. simplify_eq. simpl in Hl0.
      apply (remove_sid_elem _ _ _ _ _ Hps) in Hl0 as [Hl0 (q & Hq & Hne)].
      simplify_eq. rewrite lookup_delete_ne by done. eauto.
    + assert (rooms st !! rid0 = Some room0) as Hroom0'.
      { destruct (decide (ps = []));
          [by rewrite lookup_delete_ne in Hroom0
          |by rewrite lookup_insert_ne in Hroom0]. }
      specialize (Hreg _ _ _ _ Hroom0' Hl0 Hp0).
      rewrite lookup_delete_ne; [done|]. intros ->. rewrite Hpd in Hreg.
      by simplify_eq.
  - apply handle_toggle_ready_inv in Hstep
      as [[-> _]|(pd & room & p & all & Hpd & Hroom & Hpl & Hall & Hgo)]; [by eauto|].
    assert (players st' = players st ∧
            heap st' = <[pd_player pd:=toggle p]> (heap st) ∧
            ∃ r, rooms st !! rid0 = Some r ∧ room_players room0 = room_players r)
      as (Hps' & Hh' & r & Hr & Hpl').
    { destruct (all && _).
      - destruct Hgo as (l1 & p1 & _ & _ & -> & _). simpl in *. split_and!; try done.
        destruct (decide (rid0 = pd_room_id pd)) as [->|Hne].
        + rewrite lookup_insert_eq in Hroom0. simplify_eq. eauto.
        + rewrite lookup_insert_ne in Hroom0 by done. eauto.
      - destruct Hgo as [-> _]. simpl in *. eauto. }
    rewrite Hps'. rewrite Hh' in Hp0. rewrite Hpl' in Hl0.
    destruct (toggle_heap_lookup_2 _ _ _ _ _ Hpl Hp0) as (q & Hq & <-). eauto.
Qed.

Lemma reachable_registry_resolves st :
  reachable fresh_uuid st → registry_resolves st.
Proof.
  revert st. apply reachable_invariant.
  - intros sid pd. simpl. by rewrite lookup_empty.
  - intros. by eapply step_registry_resolves.
Qed.


Lemma reachable_members_registered st :
  reachable join_unbound st → members_registered st.
Proof.
  intros Hreach.
  cut (wf st ∧ members_registered st); [by intros [_ ?]|]. revert st Hreach.
  apply reachable_invariant.
  - split; [apply wf_init|]. intros rid room l p. simpl. by rewrite lookup_empty.
  - intros e st st' out Hok [Hwf Hm] Hstep. split;
      [by eapply step_wf | by eapply step_members_registered].
Qed.




(** ** Joining *)

(** An accepted join: the room exists, the password test passes and the room
    is not full. *)
Lemma handle_join_room_accepts sid rid name pw st room :
  wf st → rooms st !! rid = Some room →
  password_rejected (password room) pw = false →
  (Z.of_nat (length (room_players room)) < max_players room)%Z →
  ∃ st' ps,
    let room' := with_players room (room_players room ++ [length (heap st)])%list in
    handle_join_room sid rid name pw st =
      Some (st', [mkEmit (player_joined (new_player sid name) (get_room_info room'))
                         (ToRoom rid) ({[ sid ]} ∪ members st rid);
                  mkEmit (room_joined (get_room_info room') ps) ToCaller {[ sid ]}]) ∧
    rooms st' !! rid = Some room' ∧
    players st' !! sid = Some (mkPlayerData rid (length (heap st))).
Proof.
  intros Hwf Hroom Hpw Hlt.
  destruct (step_total (JoinRoom sid rid name pw) st Hwf) as [[st' out] Hstep].
  simpl in Hstep. pose proof Hstep as Hinv.
  apply handle_join_room_inv in Hinv as [[-> [msg ->]]|Hinv].
  - exfalso. unfold handle_join_room in Hstep. rewrite Hroom, Hpw in Hstep.
    rewrite bool_decide_eq_false_2 in Hstep by lia. simpl in Hstep.
    destruct (deref_all _ _); simpl in Hstep; [|done].
    injection Hstep as Hst Hout. done.
  - destruct Hinv as (room0 & ps & Hroom0 & _ & _ & Hst & Hps & Hout).
    rewrite Hroom in Hroom0. simplify_eq. eexists _, ps. simpl.
    rewrite Hstep. split_and!.
    + unfold emit, members. simpl. by rewrite lookup_insert_eq.
    + simpl. by rewrite lookup_insert_eq.
    + simpl. by rewrite lookup_insert_eq.
Qed.

(** C4 as stated fails for a room whose password is the empty string:
    [create_room] reports [has_password = true] for it, but the join handler
    tests [room.password and ...], which is false for an empty string, so a
    join with any other password is accepted. *)
Lemma empty_password_counterexample :
  let st := after any_event [open_room "r1" 2 (Some "")] in
  (create_room "r1" 0 (Some "Test") (Some 2%Z) (Some "") None init).2
    = created "r1" "Test" 2 true ∧
  password <$> rooms st !! "r1" = Some (Some "") ∧
  Some "x" ≠ Some "" ∧
  room_players <$> rooms st !! "r1" = Some ([] : list nat) ∧
  players st !! "A" = None ∧
  (λ r : State * list Emit, (room_players <$> rooms r.1 !! "r1", pd_room_id <$> players r.1 !! "A",
         (λ e, event_name (payload e)) <$> r.2))
    <$> handle_join_room "A" "r1" None (Some "x") st
    = Some (Some [0%nat], Some "r1", ["player_joined"; "room_joined"]).
Proof.
  intros st. split_and!; [by vm_compute|by vm_compute|done|by vm_compute..].
Qed.

(** C4, amended: when the room's password is a non-empty string and the
    supplied password differs from it, the join sends the invalid-password
    error to the caller only and changes nothing in the state. *)
Theorem wrong_password_rejected sid rid name pw st room secret :
  rooms st !! rid = Some room → password room = Some secret →
  secret ≠ "" → pw ≠ Some secret →
  handle_join_room sid rid name pw st
    = Some (st, [mkEmit (error "房间密码错误") ToCaller {[ sid ]}]).
Proof.
  intros Hroom Hpw Hne Hdiff. unfold handle_join_room. rewrite Hroom.
  unfold password_rejected. rewrite Hpw.
  destruct (decide (secret = "")); [done|].
  rewrite bool_decide_eq_true_2; [done|]. congruence.
Qed.

Lemma wrong_password_rejected_witness :
  let st := after any_event [open_room "r1" 2 (Some "s3cret")] in
  handle_join_room "A" "r1" None (Some "guess") st
    = Some (st, [mkEmit (error "房间密码错误") ToCaller {[ "A" ]}]).
Proof.
  intros st.
  apply (wrong_password_rejected "A" "r1" None (Some "guess") st
           (Room_init "r1" 0 "Test" 2 (Some "s3cret") "classic") "s3cret");
    [by vm_compute|reflexivity|discriminate|discriminate].
Defined.

(** C6 as stated fails: the handler calls [join_room(room_id)] before it
    emits [player_joined] to the room, so the joining connection is already a
    member and receives the broadcast too. *)
Lemma joiner_receives_player_joined :
  let st := after any_event [open_room "r1" 2 None; JoinRoom "A" "r1" None None] in
  "B" ∉ members st "r1" ∧
  ∃ st' e1 e2 p info,
    handle_join_room "B" "r1" None None st = Some (st', [e1; e2]) ∧
    payload e1 = player_joined p info ∧ "B" ∈ recipients e1.
Proof.
  intros st. split; [by vm_compute|].
  assert (wf st) as Hwf.
  { apply (reachable_wf any_event).
    by exists [open_room "r1" 2 None; JoinRoom "A" "r1" None None]. }
  assert (∃ room, rooms st !! "r1" = Some room ∧ password room = None ∧
                  length (room_players room) = 1%nat ∧ max_players room = 2%Z)
    as (room & Hroom & Hpw & Hlen & Hmax).
  { destruct (rooms st !! "r1") as [room|] eqn:Hroom; [|by vm_compute in Hroom].
    exists room. split; [done|].
    assert (Some room = rooms st !! "r1") as Heq by done.
    vm_compute in Heq. injection Heq as ->. done. }
  destruct (handle_join_room_accepts "B" "r1" None None st room Hwf Hroom)
    as (st' & ps & Hjoin & _); [by rewrite Hpw|lia|].
  eexists st', _, _, _, _. split; [exact Hjoin|]. simpl. split; [done|set_solver].
Qed.

(** C6, amended: on an accepted join, [player_joined] is delivered to the
    members the room had before the join and to the joining connection, and
    [room_joined] is delivered to the joining connection only. *)
Theorem join_deliveries sid rid name pw st room :
  wf st → rooms st !! rid = Some room →
  password_rejected (password room) pw = false →
  (Z.of_nat (length (room_players room)) < max_players room)%Z →
  ∃ st' e1 e2 info ps,
    handle_join_room sid rid name pw st = Some (st', [e1; e2]) ∧
    payload e1 = player_joined (new_player sid name) info ∧
    recipients e1 = members st rid ∪ {[ sid ]} ∧
    payload e2 = room_joined info ps ∧
    recipients e2 = {[ sid ]}.
Proof.
  intros Hwf Hroom Hpw Hlt.
  destruct (handle_join_room_accepts sid rid name pw st room Hwf Hroom Hpw Hlt)
    as (st' & ps & Hjoin & _).
  eexists st', _, _, _, ps. split; [exact Hjoin|]. simpl.
  split_and!; try done. set_solver.
Qed.

(** ** Empty rooms *)

(** A room that is in the store with no player after a join, leave or
    toggle-ready was in the store, unchanged, before it. *)
Lemma step_empty_room e st st' out rid0 room0 :
  no_create e = true → step e st = Some (st', out) →
  rooms st' !! rid0 = Some room0 → room_players room0 = [] →
  rooms st !! rid0 = Some room0.
Proof.
  intros Hok Hstep Hroom0 Hempty. destruct e; simpl in Hstep; [done|..].
  - unfold handle_connect in Hstep. by simplify_eq.
  - apply handle_join_room_inv in Hstep
      as [[-> _]|(room & ps & Hroom & _ & _ & -> & _ & _)]; [done|].
    simpl in Hroom0. destruct (decide (rid0 = rid)) as [->|Hne].
    + rewrite lookup_insert_eq in Hroom0. simplify_eq. simpl in Hempty.
      by destruct (room_players room).
    + by rewrite lookup_insert_ne in Hroom0.
  - apply handle_leave_room_inv in Hstep
      as [[-> _]|(pd & room & ps & Hpd & Hroom & Hps & -> & _)]; [done|].
    simpl in Hroom0. destruct (decide (rid0 = pd_room_id pd)) as [->|Hne].
    + destruct (decide (ps = [])); [by rewrite lookup_delete_eq in Hroom0|].
      rewrite lookup_insert_eq in Hroom0. by simplify_eq.
    + destruct (decide (ps = []));
        [by rewrite lookup_delete_ne in Hroom0
        |by rewrite lookup_insert_ne in Hroom0].
  - apply handle_toggle_ready_inv in Hstep
      as [[-> _]|(pd & room & p & all & Hpd & Hroom & Hpl & Hall & Hgo)]; [done|].
    destruct (all && _) eqn:Hfire.
    + destruct Hgo as (l0 & p0 & Hl0 & _ & -> & _). simpl in Hroom0.
      destruct (decide (rid0 = pd_room_id pd)) as [->|Hne].
      * rewrite lookup_insert_eq in Hroom0. simplify_eq. simpl in Hempty.
        by rewrite Hempty in Hl0.
      * by rewrite lookup_insert_ne in Hroom0.
    + by destruct Hgo as [-> _].
Qed.

(** C5 as stated fails: [create_room] stores the new room before anybody has
    joined it, so a room with an empty player sequence is in the store
    between operations. *)
Lemma empty_room_counterexample :
  let st := after any_event [open_room "r1" 2 None] in
  reachable any_event st ∧ ¬ no_empty_room st.
Proof.
  intros st. split.
  - by exists [open_room "r1" 2 None].
  - intros Hne.
    by apply (Hne "r1" (Room_init "r1" 0 "Test" 2 None "classic")).
Qed.

Lemma never_joined_head rid room es st :
  never_joined rid room es st → rooms st !! rid = Some room ∧ room_players room = [].
Proof. destruct es; simpl; naive_solver. Qed.

(** A room that is in the store with no player after a request was there,
    unchanged, before it, or has just been created by it. *)
Lemma step_empty_room_or_created e st st' out rid room :
  step e st = Some (st', out) →
  rooms st' !! rid = Some room → room_players room = [] →
  rooms st !! rid = Some room ∨
  ∃ now name maxp pw mode,
    e = CreateRoom rid now (Some name) maxp pw mode ∧
    room = Room_init rid now name (default 2%Z maxp) pw (default "classic" mode).
Proof.
  intros Hstep Hroom Hempty. destruct (no_create e) eqn:Hnc.
  - left. by eapply step_empty_room.
  - destruct e; try done. simpl in Hstep. simplify_eq.
    destruct (create_room_inv uuid now name maxp pw mode st)
      as [Heq|(n & -> & _ & Heq)]; rewrite Heq in Hroom; [by left|].
    simpl in Hroom. destruct (decide (rid = uuid)) as [->|Hne].
    + rewrite lookup_insert_eq in Hroom. simplify_eq. right. by eexists _, _, _, _, _.
    + rewrite lookup_insert_ne in Hroom by done. by left.
Qed.

(** A join for a room that is stored with no player afterwards was
    rejected. *)
Lemma join_keeps_empty_room sid rid name pw st st' out room :
  handle_join_room sid rid name pw st = Some (st', out) →
  rooms st' !! rid = Some room → room_players room = [] → st' = st.
Proof.
  intros Hjoin Hroom Hempty.
  apply handle_join_room_inv in Hjoin
    as [[-> _]|(room0 & ps & Hroom0 & _ & _ & -> & _ & _)]; [done|].
  simpl in Hroom. rewrite lookup_insert_eq in Hroom. simplify_eq.
  simpl in Hempty. by destruct (room_players room0).
Qed.

Lemma run_empty_room es s0 st rid room :
  run_if any_event es s0 = Some st →
  rooms st !! rid = Some room → room_players room = [] →
  never_joined rid room es s0 ∨
  ∃ es1 now name maxp pw mode es2 st1,
    es = (es1 ++ CreateRoom rid now (Some name) maxp pw mode :: es2)%list ∧
    run_if any_event (es1 ++ [CreateRoom rid now (Some name) maxp pw mode]) s0
      = Some st1 ∧
    room = Room_init rid now name (default 2%Z maxp) pw (default "classic" mode) ∧
    never_joined rid room es2 st1.
Proof.
  revert s0. induction es as [|e es IH]; simpl; intros s0 Hrun Hroom Hempty.
  - simplify_eq. by left.
  - destruct (step e s0) as [[s1 o1]|] eqn:Hstep; simpl in Hrun; [|done].
    destruct (IH s1 Hrun Hroom Hempty)
      as [Hnj|(es1 & now & name & maxp & pw & mode & es2 & st1 & -> & Hrun1 & -> & Hnj)].
    + destruct (never_joined_head _ _ _ _ Hnj) as [Hroom1 _].
      destruct (step_empty_room_or_created _ _ _ _ _ _ Hstep Hroom1 Hempty)
        as [Hroom0|(now & name & maxp & pw & mode & -> & ->)].
      * left. split_and!; [done..|]. exists s1, o1. split_and!; [done| |done].
        intros sid name pw ->. simpl in Hstep. by eapply join_keeps_empty_room.
      * right. exists [], now, name, maxp, pw, mode, es, s1. simpl.
        split_and!; [done| |done..]. simpl in Hstep. by simplify_eq.
    + right. exists (e :: es1), now, name, maxp, pw, mode, es2, st1. simpl.
      rewrite Hstep. simpl. done.
Qed.

(** C5, amended: at every observable instant, a room that is in the store
    with an empty player sequence is a room that [create_room] stored and that
    nothing has changed since: no join into it has been accepted yet.  (A room
    that has had a player is therefore never in the store with an empty
    sequence.) *)
Theorem empty_room_never_joined (es : list Event) (st : State) (rid : string)
    (room : Room) :
  run_if any_event es init = Some st →
  rooms st !! rid = Some room → room_players room = [] →
  ∃ es1 now name maxp pw mode es2 st1,
    es = (es1 ++ CreateRoom rid now (Some name) maxp pw mode :: es2)%list ∧
    run_if any_event (es1 ++ [CreateRoom rid now (Some name) maxp pw mode]) init
      = Some st1 ∧
    room = Room_init rid now name (default 2%Z maxp) pw (default "classic" mode) ∧
    never_joined rid room es2 st1.
Proof.
  intros Hrun Hroom Hempty.
  destruct (run_empty_room es init st rid room Hrun Hroom Hempty) as [Hnj|H];
    [|exact H].
  apply never_joined_head in Hnj as [Hinit _]. simpl in Hinit.
  by rewrite lookup_empty in Hinit.
Qed.

Lemma empty_room_never_joined_witness :
  let es := [open_room "r1" 2 None; open_room "r2" 2 (Some "pw");
             JoinRoom "A" "r1" None None; JoinRoom "B" "r2" None (Some "guess");
             ToggleReady "A"; LeaveRoom "A"] in
  let room := Room_init "r2" 0 "Test" 2 (Some "pw") "classic" in
  ∃ es1 now name maxp pw mode es2 st1,
    es = (es1 ++ CreateRoom "r2" now (Some name) maxp pw mode :: es2)%list ∧
    run_if any_event (es1 ++ [CreateRoom "r2" now (Some name) maxp pw mode]) init
      = Some st1 ∧
    room = Room_init "r2" now name (default 2%Z maxp) pw (default "classic" mode) ∧
    never_joined "r2" room es2 st1.
Proof.
  intros es room.
  apply (empty_room_never_joined es (after any_event es) "r2" room).
  - by vm_compute.
  - by vm_compute.
  - reflexivity.
Defined.

Lemma join_deliveries_witness :
  let st := after any_event [open_room "r1" 2 None; JoinRoom "A" "r1" None None] in
  ∃ st' e1 e2 info ps,
    handle_join_room "B" "r1" None None st = Some (st', [e1; e2]) ∧
    payload e1 = player_joined (new_player "B" None) info ∧
    recipients e1 = members st "r1" ∪ {[ "B" ]} ∧
    payload e2 = room_joined info ps ∧
    recipients e2 = {[ "B" ]}.
Proof.
  intros st.
  apply (join_deliveries "B" "r1" None None st
           (mkRoom "r1" "Test" 2 None "classic" [0%nat] waiting 0 None)).
  - apply (reachable_wf any_event).
    by exists [open_room "r1" 2 None; JoinRoom "A" "r1" None None].
  - by vm_compute.
  - reflexivity.
  - simpl. lia.
Defined.

(** ** The waiting-to-playing transition *)

(** The transition in terms of the handler's own test. *)
Lemma readiness_transition_code sid st rid room :
  wf st → rooms st !! rid = Some room → status room = waiting →
  ∃ st' out room',
    handle_toggle_ready sid st = Some (st', out) ∧
    rooms st' !! rid = Some room' ∧
    ((length (room_players room) < 2)%nat → status room' = waiting) ∧
    (status room' = playing ↔
     (pd_room_id <$> players st !! sid = Some rid ∧
       all_ready (heap st') (room_players room) = Some true ∧
       (2 ≤ length (room_players room))%nat)) ∧
    ((∃ e gs, e ∈ out ∧ payload e = game_started gs ∧ target e = ToRoom rid)
       ↔
     (pd_room_id <$> players st !! sid = Some rid ∧
       all_ready (heap st') (room_players room) = Some true ∧
       (2 ≤ length (room_players room))%nat)).
Proof.
  intros Hwf Hroom Hwait.
  destruct (handle_toggle_ready_total sid st Hwf) as [[st' out] Hstep].
  exists st', out. pose proof Hstep as Hinv.
  apply handle_toggle_ready_inv in Hinv
    as [(-> & -> & Hnone)|(pd & room1 & p & all & Hpd & Hroom1 & Hpl & Hall & Hgo)].
  - exists room. split_and!; [done..| |].
    + split; [congruence|]. intros (Hb & _).
      destruct (players st !! sid) as [pd|] eqn:Hpd; simplify_eq/=.
      specialize (Hnone pd eq_refl). congruence.
    + split; [intros (e & _ & []%elem_of_nil & _)|]. intros (Hb & _).
      destruct (players st !! sid) as [pd|] eqn:Hpd; simplify_eq/=.
      specialize (Hnone pd eq_refl). congruence.
  - destruct (decide (rid = pd_room_id pd)) as [->|Hne].
    + simplify_eq. destruct all; simpl in Hgo; [case_bool_decide as Hlen|].
      * destruct Hgo as (l0 & p0 & Hl0 & Hp0 & -> & ->). simpl.
        eexists. rewrite lookup_insert_eq. split_and!; [done..|simpl; lia| |].
        -- rewrite Hpd. done.
        -- rewrite Hpd. split; [done|]. intros _.
           eexists (mkEmit (game_started _) _ _), _.
           split_and!; [|done..]. apply elem_of_cons. right. by left.
      * destruct Hgo as [-> ->]. simpl. exists room.
        split_and!; [done..|congruence| |].
        -- split; [congruence|]. intros (_ & _ & ?). done.
        -- split; [|intros (_ & _ & ?); done].
           intros (e & gs & ->%list_elem_of_singleton & Hpay & _). done.
      * destruct Hgo as [-> ->]. simpl. exists room.
        split_and!; [done..|congruence| |].
        -- split; [congruence|]. intros (_ & ? & _). congruence.
        -- split; [|intros (_ & ? & _); congruence].
           intros (e & gs & ->%list_elem_of_singleton & Hpay & _). done.
    + assert (rooms st' !! rid = Some room ∧
              ∀ e gs, e ∈ out → payload e = game_started gs → target e ≠ ToRoom rid)
        as [Hroom' Hout].
      { destruct (all && _).
        - destruct Hgo as (l0 & p0 & _ & _ & -> & ->). simpl.
          rewrite lookup_insert_ne by done. split; [done|].
          intros e gs He Hpay. apply elem_of_cons in He as [->|He]; [done|].
          apply list_elem_of_singleton in He as ->. simpl. congruence.
        - destruct Hgo as [-> ->]. simpl. split; [done|].
          intros e gs ->%list_elem_of_singleton Hpay. done. }
      exists room. split_and!; [done..| |].
      * split; [congruence|]. intros (Hb & _). rewrite Hpd in Hb. simplify_eq/=.
      * split; [|intros (Hb & _); rewrite Hpd in Hb; simplify_eq/=].
        intros (e & gs & He & Hpay & Htgt). exfalso. by eapply Hout.
Qed.

(** C7: a toggle never moves a waiting room with fewer than two players to
    [playing], even if all its players are ready; a waiting room becomes
    [playing], and [game_started] is broadcast to it, exactly when after the
    toggle every player object of the room has its ready flag set and the room
    has at least two players. *)
Theorem readiness_transition sid st rid room :
  wf st → rooms st !! rid = Some room → status room = waiting →
  ∃ st' out room',
    handle_toggle_ready sid st = Some (st', out) ∧
    rooms st' !! rid = Some room' ∧
    ((length (room_players room) < 2)%nat → status room' = waiting) ∧
    (status room' = playing ↔ ready_to_start st sid rid (heap st') room) ∧
    ((∃ e gs, e ∈ out ∧ payload e = game_started gs ∧ target e = ToRoom rid)
       ↔ ready_to_start st sid rid (heap st') room).
Proof.
  intros Hwf Hroom Hwait.
  destruct (readiness_transition_code sid st rid room Hwf Hroom Hwait)
    as (st' & out & room' & Hstep & Hroom' & Hfew & Hstatus & Hemit).
  exists st', out, room'. unfold ready_to_start.
  rewrite <- (all_ready_true (heap st') (room_players room)). done.
Qed.

Lemma readiness_transition_witness :
  let st := after any_event [open_room "r1" 2 None; JoinRoom "A" "r1" None None;
                             JoinRoom "B" "r1" None None; ToggleReady "A"] in
  let room := mkRoom "r1" "Test" 2 None "classic" [0%nat; 1%nat] waiting 0 None in
  ∃ st' out room',
    handle_toggle_ready "B" st = Some (st', out) ∧
    rooms st' !! "r1" = Some room' ∧
    ((length (room_players room) < 2)%nat → status room' = waiting) ∧
    (status room' = playing ↔ ready_to_start st "B" "r1" (heap st') room) ∧
    ((∃ e gs, e ∈ out ∧ payload e = game_started gs ∧ target e = ToRoom "r1")
       ↔ ready_to_start st "B" "r1" (heap st') room).
Proof.
  intros st room. apply (readiness_transition "B" st "r1" room).
  - apply (reachable_wf any_event).
    by exists [open_room "r1" 2 None; JoinRoom "A" "r1" None None;
               JoinRoom "B" "r1" None None; ToggleReady "A"].
  - by vm_compute.
  - reflexivity.
Defined.

(** ** Leaving *)

(** C8: when a bound connection leaves, its room is removed from the store
    if the leave empties the player sequence, and stays in the store, with
    the remaining players, otherwise. *)
Theorem leave_room_store sid st pd :
  reachable fresh_uuid st → players st !! sid = Some pd →
  ∃ room ps st' out,
    rooms st !! pd_room_id pd = Some room ∧
    remove_sid (heap st) sid (room_players room) = Some ps ∧
    handle_leave_room sid st = Some (st', out) ∧
    (ps = [] → rooms st' !! pd_room_id pd = None) ∧
    (ps ≠ [] → rooms st' !! pd_room_id pd = Some (with_players room ps)).
Proof.
  intros Hreach Hpd.
  pose proof (reachable_wf _ _ Hreach) as Hwf.
  destruct (reachable_registry_resolves _ Hreach _ _ Hpd) as (room & _ & Hroom & _).
  destruct (remove_sid_total (heap st) sid (room_players room)) as [ps Hps];
    [by eapply wf_locations|].
  unfold handle_leave_room. rewrite Hpd, Hroom, Hps. simpl.
  exists room, ps. destruct ps as [|l ps]; simpl.
  - eexists _, _. split_and!; [done..| |done].
    intros _. simpl. by rewrite lookup_delete_eq.
  - eexists _, _. split_and!; [done..| |].
    + done.
    + intros _. simpl. by rewrite lookup_insert_eq.
Qed.

Lemma leave_room_store_witness :
  let st := after fresh_uuid [open_room "r1" 2 None; JoinRoom "A" "r1" None None;
                              JoinRoom "B" "r1" None None] in
  ∃ room ps st' out,
    rooms st !! "r1" = Some room ∧
    remove_sid (heap st) "A" (room_players room) = Some ps ∧
    handle_leave_room "A" st = Some (st', out) ∧
    (ps = [] → rooms st' !! "r1" = None) ∧
    (ps ≠ [] → rooms st' !! "r1" = Some (with_players room ps)).
Proof.
  intros st. apply (leave_room_store "A" st (mkPlayerData "r1" 0)).
  - by exists [open_room "r1" 2 None; JoinRoom "A" "r1" None None;
               JoinRoom "B" "r1" None None].
  - by vm_compute.
Defined.

(** ** The game board *)

(** C9 as stated fails: every mode other than "classic" and "team" gets the
    board tagged "custom", so two distinct modes share one structure and the
    tag is not the mode. *)
Lemma unknown_modes_share_board :
  "solo" ≠ "duel" ∧
  initialize_game_board "solo" = initialize_game_board "duel" ∧
  board_type (initialize_game_board "solo") ≠ "solo".
Proof. split_and!; [done|reflexivity|done]. Qed.

(** C9, amended: the board built at the transition carries the "initial"
    marker; for the modes "classic", "team" and "custom" it is tagged with
    that mode, so these three modes yield distinct structures, and for every
    other mode it is the board tagged "custom". *)
Theorem game_board_by_mode sid rid st room l0 rest p0 :
  rooms st !! rid = Some room → room_players room = l0 :: rest →
  heap st !! l0 = Some p0 →
  ∃ st' out room' gs,
    start_game sid rid st = Some (st', out) ∧
    rooms st' !! rid = Some room' ∧ game_state room' = Some gs ∧
    board gs = initialize_game_board (game_mode room) ∧
    board_state (board gs) = "initial" ∧
    board_type (board gs) =
      (if bool_decide (game_mode room ∈ ["classic"; "team"; "custom"])
       then game_mode room else "custom") ∧
    initialize_game_board "classic" ≠ initialize_game_board "team" ∧
    initialize_game_board "classic" ≠ initialize_game_board "custom" ∧
    initialize_game_board "team" ≠ initialize_game_board "custom".
Proof.
  intros Hroom Hplayers Hp0. unfold start_game. rewrite Hroom, Hplayers. simpl.
  rewrite Hp0. simpl. eexists _, _, _, _. split; [done|]. simpl.
  rewrite lookup_insert_eq. split_and!; try done.
  - unfold initialize_game_board. by repeat case_decide.
  - unfold initialize_game_board.
    repeat case_decide; case_bool_decide as Hin; simpl; try done; subst.
    + exfalso. apply Hin. set_solver.
    + exfalso. apply Hin. set_solver.
    + set_solver.
Qed.

Lemma game_board_by_mode_witness :
  let st := after any_event [CreateRoom "r1" 0 (Some "Test") (Some 2%Z) None (Some "team");
                             JoinRoom "A" "r1" None None] in
  let room := mkRoom "r1" "Test" 2 None "team" [0%nat] waiting 0 None in
  ∃ st' out room' gs,
    start_game "A" "r1" st = Some (st', out) ∧
    rooms st' !! "r1" = Some room' ∧ game_state room' = Some gs ∧
    board gs = initialize_game_board (game_mode room) ∧
    board_state (board gs) = "initial" ∧
    board_type (board gs) =
      (if bool_decide (game_mode room ∈ ["classic"; "team"; "custom"])
       then game_mode room else "custom") ∧
    initialize_game_board "classic" ≠ initialize_game_board "team" ∧
    initialize_game_board "classic" ≠ initialize_game_board "custom" ∧
    initialize_game_board "team" ≠ initialize_game_board "custom".
Proof.
  intros st room.
  apply (game_board_by_mode "A" "r1" st room 0%nat [] (mkPlayer "A" "玩家-A" false)).
  - by vm_compute.
  - reflexivity.
  - by vm_compute.
Defined.

(** ** The first player of a started game *)

(** C10: when the re-check of [handle_toggle_ready] calls [start_game] (all
    players of the caller's room are ready after the flip and there are at
    least two of them), the room's player sequence is not empty, the handler
    does not raise, and the new [game_state] has [turn = 0] and, as
    [current_player], the id of the player at the head of the sequence, who
    joined before every other player still in the room. *)
Theorem start_game_first_player sid st pd room p :
  reachable any_event st →
  players st !! sid = Some pd → rooms st !! pd_room_id pd = Some room →
  heap st !! pd_player pd = Some p →
  all_ready (<[ pd_player pd := toggle p ]> (heap st)) (room_players room) = Some true →
  (2 ≤ length (room_players room))%nat →
  ∃ l0 rest p0 st' out room' gs,
    handle_toggle_ready sid st = Some (st', out) ∧
    room_players room = l0 :: rest ∧ Forall (lt l0) rest ∧
    heap st' !! l0 = Some p0 ∧
    last out = Some (mkEmit (game_started gs) (ToRoom (pd_room_id pd))
                            (members st (pd_room_id pd))) ∧
    rooms st' !! pd_room_id pd = Some room' ∧
    room_players room' = room_players room ∧
    status room' = playing ∧ game_state room' = Some gs ∧
    turn gs = 0%Z ∧ current_player gs = player_id p0.
Proof.
  intros Hreach Hpd Hroom Hp Hall Hlen.
  pose proof (reachable_wf _ _ Hreach) as Hwf.
  pose proof (reachable_join_ordered _ _ Hreach _ _ Hroom) as Hsorted.
  pose proof (wf_locations _ _ _ Hwf Hroom) as Hlocs.
  destruct (room_players room) as [|l0 rest] eqn:Hplayers; simpl in Hlen; [lia|].
  apply StronglySorted_cons in Hsorted as [Hfirst _].
  apply Forall_cons in Hlocs as [Hl0 _].
  destruct (lookup_lt_is_Some_2 (<[pd_player pd:=toggle p]> (heap st)) l0)
    as [p0 Hp0]; [by rewrite length_insert|].
  exists l0, rest, p0. unfold handle_toggle_ready.
  rewrite Hpd, Hroom, Hp. simpl. rewrite Hplayers, Hall. simpl.
  unfold start_game. simpl. rewrite Hroom, Hplayers. simpl. rewrite Hp0. simpl.
  rewrite bool_decide_eq_true_2 by (simpl; lia).
  eexists _, _, _, _. split; [reflexivity|]. simpl.
  rewrite lookup_insert_eq. by split_and!.
Qed.

Lemma start_game_first_player_witness :
  let st := after any_event
              [open_room "r1" 3 None; JoinRoom "A" "r1" None None;
               JoinRoom "B" "r1" None None; JoinRoom "C" "r1" None None;
               ToggleReady "B"; LeaveRoom "A"] in
  let room := mkRoom "r1" "Test" 3 None "classic" [1%nat; 2%nat] waiting 0 None in
  ∃ l0 rest p0 st' out room' gs,
    handle_toggle_ready "C" st = Some (st', out) ∧
    room_players room = l0 :: rest ∧ Forall (lt l0) rest ∧
    heap st' !! l0 = Some p0 ∧
    last out = Some (mkEmit (game_started gs) (ToRoom "r1") (members st "r1")) ∧
    rooms st' !! "r1" = Some room' ∧
    room_players room' = room_players room ∧
    status room' = playing ∧ game_state room' = Some gs ∧
    turn gs = 0%Z ∧ current_player gs = player_id p0.
Proof.
  intros st room.
  apply (start_game_first_player "C" st (mkPlayerData "r1" 2) room
           (mkPlayer "C" "玩家-C" false)).
  - by exists [open_room "r1" 3 None; JoinRoom "A" "r1" None None;
               JoinRoom "B" "r1" None None; JoinRoom "C" "r1" None None;
               ToggleReady "B"; LeaveRoom "A"].
  - by vm_compute.
  - by vm_compute.
  - by vm_compute.
  - by vm_compute.
  - simpl. lia.
Defined.

(** * Further properties of the handlers *)

(** ** What a request can do to a stored room *)

(** After any request, a stored room is as it was, or has a new player
    sequence (a leave shortens it, a join needs a free place), or has just
    been started, or has just been created. *)
Lemma step_room_cases e st st' out rid room' :
  step e st = Some (st', out) → rooms st' !! rid = Some room' →
  rooms st !! rid = Some room' ∨
  (∃ room ps, rooms st !! rid = Some room ∧ room' = with_players room ps ∧
      ((length ps ≤ length (room_players room))%nat ∨
       (Z.of_nat (length (room_players room)) < max_players room)%Z)) ∨
  (∃ room p0, rooms st !! rid = Some room ∧
      room' = with_game room playing
                (Some (mkGameState 0 (player_id p0)
                                   (initialize_game_board (game_mode room))))) ∨
  (∃ now n maxp pw mode,
      e = CreateRoom rid now (Some n) maxp pw mode ∧
      room' = Room_init rid now n (default 2%Z maxp) pw (default "classic" mode)).
Proof.
  intros Hstep Hroom'. destruct e; simpl in Hstep.
  - simplify_eq.
    destruct (create_room_inv uuid now name maxp pw mode st)
      as [Heq|(n & -> & _ & Heq)]; rewrite Heq in Hroom'; [by left|].
    simpl in Hroom'. destruct (decide (rid = uuid)) as [->|Hne].
    + rewrite lookup_insert_eq in Hroom'. simplify_eq. do 3 right. by eexists _, _, _, _, _.
    + rewrite lookup_insert_ne in Hroom' by done. by left.
  - unfold handle_connect in Hstep. simplify_eq. by left.
  - apply handle_join_room_inv in Hstep
      as [[-> _]|(room & ps & Hroom & _ & Hlt & -> & _ & _)]; [by left|].
    simpl in Hroom'. destruct (decide (rid = rid0)) as [->|Hne].
    + rewrite lookup_insert_eq in Hroom'. simplify_eq. right. left.
      eexists _, _. split_and!; [done..|by right].
    + rewrite lookup_insert_ne in Hroom' by done. by left.
  - apply handle_leave_room_inv in Hstep
      as [[-> _]|(pd & room & ps & Hpd & Hroom & Hps & -> & _)]; [by left|].
    simpl in Hroom'. destruct (decide (rid = pd_room_id pd)) as [->|Hne].
    + destruct (decide (ps = [])); [by rewrite lookup_delete_eq in Hroom'|].
      rewrite lookup_insert_eq in Hroom'. simplify_eq. right. left.
      eexists _, _. split_and!; [done..|]. left. by eapply remove_sid_length.
    + left. destruct (decide (ps = []));
        [by rewrite lookup_delete_ne in Hroom'
        |by rewrite lookup_insert_ne in Hroom'].
  - apply handle_toggle_ready_inv in Hstep
      as [[-> _]|(pd & room & p & all & Hpd & Hroom & Hpl & Hall & Hgo)]; [by left|].
    destruct (all && _).
    + destruct Hgo as (l0 & p0 & _ & _ & -> & _). simpl in Hroom'.
      destruct (decide (rid = pd_room_id pd)) as [->|Hne].
      * rewrite lookup_insert_eq in Hroom'. simplify_eq. right. right. left.
        by eexists _, _.
      * rewrite lookup_insert_ne in Hroom' by done. by left.
    + destruct Hgo as [-> _]. by left.
Qed.

(** X2: in every state reached from the empty lobby, a stored room is either
    waiting with no game state, or playing with a game state whose turn is 0
    and whose board is the one of the room's mode; the status [ended] is never
    reached. *)
Theorem status_and_game_state (st : State) (rid : string) (room : Room) :
  reachable any_event st → rooms st !! rid = Some room → room_settled room.
Proof.
  intros Hreach. revert rid room. revert st Hreach.
  apply (reachable_invariant any_event
           (λ st, ∀ rid room, rooms st !! rid = Some room → room_settled room)).
  - intros rid room. simpl. by rewrite lookup_empty.
  - intros e st st' out _ IH Hstep rid room' Hroom'.
    destruct (step_room_cases _ _ _ _ _ _ Hstep Hroom')
      as [Hsame|[(room & ps & Hroom & -> & _)|[(room & p0 & Hroom & ->)
         |(now & n & maxp & pw & mode & _ & ->)]]].
    + eauto.
    + apply IH in Hroom. exact Hroom.
    + right. split; [done|]. by eexists.
    + left. done.
Qed.

Lemma status_and_game_state_witness :
  room_settled (mkRoom "r1" "Test" 2 None "classic" [0%nat; 1%nat] playing 0
                       (Some (mkGameState 0 "A" (mkBoard "classic" "initial")))).
Proof.
  apply (status_and_game_state (after any_event two_ready) "r1").
  - exists two_ready. by vm_compute.
  - by vm_compute.
Defined.

(** X3: in every state reached from the empty lobby, the id a room carries
    (and reports in [room_info]) is the key under which it is stored. *)
Theorem room_id_is_key (st : State) (rid : string) (room : Room) :
  reachable any_event st → rooms st !! rid = Some room →
  room_id room = rid ∧ info_id (get_room_info room) = rid.
Proof.
  intros Hreach Hroom. cut (room_id room = rid); [by intros H; split|].
  revert rid room Hroom. revert st Hreach.
  apply (reachable_invariant any_event
           (λ st, ∀ rid room, rooms st !! rid = Some room → room_id room = rid)).
  - intros rid room. simpl. by rewrite lookup_empty.
  - intros e st st' out _ IH Hstep rid room' Hroom'.
    destruct (step_room_cases _ _ _ _ _ _ Hstep Hroom')
      as [Hsame|[(room & ps & Hroom & -> & _)|[(room & p0 & Hroom & ->)
         |(now & n & maxp & pw & mode & _ & ->)]]]; simpl; eauto.
Qed.

Lemma room_id_is_key_witness :
  let room := mkRoom "r1" "Test" 2 None "classic" [0%nat; 1%nat] playing 0
                     (Some (mkGameState 0 "A" (mkBoard "classic" "initial"))) in
  room_id room = "r1" ∧ info_id (get_room_info room) = "r1".
Proof.
  intros room. apply (room_id_is_key (after any_event two_ready) "r1" room).
  - exists two_ready. by vm_compute.
  - by vm_compute.
Defined.

(** X4: no request changes the id, name, capacity, password, mode or creation
    time of a room that stays in the store, as long as [create_room] draws an
    id that is not in use. *)
Theorem room_settings_never_change e st st' out rid room room' :
  fresh_uuid e st = true → step e st = Some (st', out) →
  rooms st !! rid = Some room → rooms st' !! rid = Some room' →
  same_settings room room'.
Proof.
  intros Hok Hstep Hroom Hroom'.
  destruct (step_room_cases _ _ _ _ _ _ Hstep Hroom')
    as [Hsame|[(room0 & ps & Hroom0 & -> & _)|[(room0 & p0 & Hroom0 & ->)
       |(now & n & maxp & pw & mode & -> & ->)]]]; simplify_eq; try done.
  simpl in Hok. apply bool_decide_eq_true in Hok. congruence.
Qed.

Lemma room_settings_never_change_witness :
  let st := after any_event [open_room "r1" 2 (Some "pw")] in
  let room := mkRoom "r1" "Test" 2 (Some "pw") "classic" [] waiting 0 None in
  let room' := mkRoom "r1" "Test" 2 (Some "pw") "classic" [0%nat] waiting 0 None in
  same_settings room room'.
Proof.
  intros st room room'.
  apply (room_settings_never_change (JoinRoom "A" "r1" None (Some "pw")) st
           (after any_event [open_room "r1" 2 (Some "pw");
                             JoinRoom "A" "r1" None (Some "pw")])
           (default [] (snd <$> step (JoinRoom "A" "r1" None (Some "pw")) st))
           "r1" room room').
  - reflexivity.
  - by vm_compute.
  - by vm_compute.
  - by vm_compute.
Defined.

(** X5: a game that has started stays started: while a room is in the store
    (and [create_room] draws unused ids), no request brings its status back
    from [playing] to [waiting]. *)
Theorem started_stays_started e st st' out rid room room' :
  fresh_uuid e st = true → step e st = Some (st', out) →
  rooms st !! rid = Some room → status room = playing →
  rooms st' !! rid = Some room' → status room' = playing.
Proof.
  intros Hok Hstep Hroom Hplaying Hroom'.
  destruct (step_room_cases _ _ _ _ _ _ Hstep Hroom')
    as [Hsame|[(room0 & ps & Hroom0 & -> & _)|[(room0 & p0 & Hroom0 & ->)
       |(now & n & maxp & pw & mode & -> & ->)]]]; simplify_eq; try done.
  simpl in Hok. apply bool_decide_eq_true in Hok. congruence.
Qed.

Lemma started_stays_started_witness :
  let room' := mkRoom "r1" "Test" 2 None "classic" [0%nat; 1%nat] playing 0
                      (Some (mkGameState 0 "A" (mkBoard "classic" "initial"))) in
  rooms (after any_event (two_ready ++ [ToggleReady "A"])) !! "r1" = Some room' ∧
  status room' = playing.
Proof.
  intros room'. split; [by vm_compute|].
  apply (started_stays_started (ToggleReady "A") (after any_event two_ready)
           (after any_event (two_ready ++ [ToggleReady "A"]))
           (default [] (snd <$> step (ToggleReady "A") (after any_event two_ready)))
           "r1" room' room').
  - reflexivity.
  - by vm_compute.
  - by vm_compute.
  - reflexivity.
  - by vm_compute.
Defined.

(** ** Rejected joins *)

(** X6: a join for a room id that is not in the store sends the
    room-not-found error to the caller only and changes nothing. *)
Theorem join_unknown_room sid rid name pw st :
  rooms st !! rid = None →
  handle_join_room sid rid name pw st
    = Some (st, [mkEmit (error "房间不存在") ToCaller {[ sid ]}]).
Proof. intros Hroom. unfold handle_join_room. by rewrite Hroom. Qed.

Lemma join_unknown_room_witness :
  let st := after any_event [open_room "r1" 2 None] in
  handle_join_room "A" "r9" None None st
    = Some (st, [mkEmit (error "房间不存在") ToCaller {[ "A" ]}]).
Proof. intros st. apply join_unknown_room. by vm_compute. Defined.

(** X7: a join that passes the password test for a room that already has
    [max_players] players (or more) sends the room-full error to the caller
    only and changes nothing. *)
Theorem join_full_room sid rid name pw st room :
  rooms st !! rid = Some room → password_rejected (password room) pw = false →
  (max_players room ≤ Z.of_nat (length (room_players room)))%Z →
  handle_join_room sid rid name pw st
    = Some (st, [mkEmit (error "房间已满") ToCaller {[ sid ]}]).
Proof.
  intros Hroom Hpw Hfull. unfold handle_join_room. rewrite Hroom, Hpw.
  by rewrite bool_decide_eq_true_2.
Qed.

Lemma join_full_room_witness :
  let st := after any_event [open_room "r1" 1 None; JoinRoom "A" "r1" None None] in
  handle_join_room "B" "r1" None None st
    = Some (st, [mkEmit (error "房间已满") ToCaller {[ "B" ]}]).
Proof.
  intros st.
  apply (join_full_room "B" "r1" None None st
           (mkRoom "r1" "Test" 1 None "classic" [0%nat] waiting 0 None)).
  - by vm_compute.
  - reflexivity.
  - simpl. lia.
Defined.

(** X8: an [error] event is never broadcast and never comes with a state
    change: whenever a request makes a handler emit [error], the request is a
    join, the error is the only event emitted, it goes to the caller only, and
    the state is unchanged. *)
Theorem errors_are_direct e st st' out em msg :
  step e st = Some (st', out) → em ∈ out → payload em = error msg →
  st' = st ∧ out = [em] ∧ target em = ToCaller ∧
  ∃ sid rid name pw, e = JoinRoom sid rid name pw ∧ recipients em = {[ sid ]}.
Proof.
  intros Hstep Hin Hpay. destruct e; simpl in Hstep.
  - simplify_eq. by apply elem_of_nil in Hin.
  - unfold handle_connect in Hstep. simplify_eq. by apply elem_of_nil in Hin.
  - apply handle_join_room_inv in Hstep
      as [[-> [msg' ->]]|(room & ps & _ & _ & _ & _ & _ & ->)].
    + apply list_elem_of_singleton in Hin as ->. split_and!; [done..|].
      by eexists _, _, _, _.
    + apply elem_of_cons in Hin as [->|Hin]; [done|].
      by apply list_elem_of_singleton in Hin as ->.
  - apply handle_leave_room_inv in Hstep
      as [[-> ->]|(pd & room & ps & _ & _ & _ & _ & ->)].
    + by apply elem_of_nil in Hin.
    + by apply list_elem_of_singleton in Hin as ->.
  - apply handle_toggle_ready_inv in Hstep
      as [(-> & -> & _)|(pd & room & p & all & _ & _ & _ & _ & Hgo)].
    + by apply elem_of_nil in Hin.
    + destruct (all && _).
      * destruct Hgo as (l0 & p0 & _ & _ & _ & ->).
        apply elem_of_cons in Hin as [->|Hin]; [done|].
        by apply list_elem_of_singleton in Hin as ->.
      * destruct Hgo as [_ ->]. by apply list_elem_of_singleton in Hin as ->.
Qed.

Lemma errors_are_direct_witness :
  let st := after any_event [open_room "r1" 2 (Some "pw")] in
  let em := mkEmit (error "房间密码错误") ToCaller {[ "A" ]} in
  st = st ∧ [em] = [em] ∧ target em = ToCaller ∧
  ∃ sid rid name pw,
    JoinRoom "A" "r1" None None = JoinRoom sid rid name pw ∧ recipients em = {[ sid ]}.
Proof.
  intros st em.
  apply (errors_are_direct (JoinRoom "A" "r1" None None) st st [em] em "房间密码错误").
  - by vm_compute.
  - apply list_elem_of_singleton. reflexivity.
  - reflexivity.
Defined.

(** X9: a room created with a capacity of zero or less can never be joined:
    in every state reached from the empty lobby its player sequence is
    empty. *)
Theorem nonpositive_capacity_stays_empty (st : State) (rid : string) (room : Room) :
  reachable any_event st → rooms st !! rid = Some room →
  (max_players room ≤ 0)%Z → room_players room = [].
Proof.
  intros Hreach. revert rid room. revert st Hreach.
  apply (reachable_invariant any_event
           (λ st, ∀ rid room, rooms st !! rid = Some room →
                    (max_players room ≤ 0)%Z → room_players room = [])).
  - intros rid room. simpl. by rewrite lookup_empty.
  - intros e st st' out _ IH Hstep rid room' Hroom' Hmax.
    destruct (step_room_cases _ _ _ _ _ _ Hstep Hroom')
      as [Hsame|[(room & ps & Hroom & -> & Hps)|[(room & p0 & Hroom & ->)
         |(now & n & maxp & pw & mode & _ & ->)]]]; simpl in *; eauto.
    destruct Hps as [Hlen|Hlt]; [|lia].
    rewrite (IH _ _ Hroom Hmax) in Hlen. destruct ps; simpl in *; [done|lia].
Qed.

Lemma nonpositive_capacity_stays_empty_witness :
  room_players (mkRoom "r1" "Test" 0 None "classic" [] waiting 0 None) = [].
Proof.
  apply (nonpositive_capacity_stays_empty
           (after any_event [open_room "r1" 0 None; JoinRoom "A" "r1" None None]) "r1").
  - exists [open_room "r1" 0 None; JoinRoom "A" "r1" None None]. by vm_compute.
  - by vm_compute.
  - simpl. lia.
Defined.

(** ** Repeating a request *)

(** X10: leaving is idempotent: after a leave, a second leave from the same
    connection changes nothing and emits nothing. *)
Theorem leave_twice sid st st1 out1 :
  handle_leave_room sid st = Some (st1, out1) →
  handle_leave_room sid st1 = Some (st1, []).
Proof.
  intros Hleave. pose proof Hleave as Hinv.
  apply handle_leave_room_inv in Hinv
    as [[-> ->]|(pd & room & ps & _ & _ & _ & -> & _)]; [done|].
  unfold handle_leave_room. simpl. by rewrite lookup_delete_eq.
Qed.

Lemma leave_twice_witness :
  let st1 := after any_event [open_room "r1" 2 None; JoinRoom "A" "r1" None None;
                              JoinRoom "B" "r1" None None; LeaveRoom "A"] in
  handle_leave_room "A" st1 = Some (st1, []).
Proof.
  intros st1.
  apply (leave_twice "A" (after any_event [open_room "r1" 2 None;
                                           JoinRoom "A" "r1" None None;
                                           JoinRoom "B" "r1" None None])
           st1 (default [] (snd <$> handle_leave_room "A"
                              (after any_event [open_room "r1" 2 None;
                                                JoinRoom "A" "r1" None None;
                                                JoinRoom "B" "r1" None None])))).
  by vm_compute.
Defined.

(** X11: toggling readiness twice from the same connection puts every player
    object back as it was, and leaves the registry untouched. *)
Theorem toggle_twice sid st st1 out1 st2 out2 :
  handle_toggle_ready sid st = Some (st1, out1) →
  handle_toggle_ready sid st1 = Some (st2, out2) →
  heap st2 = heap st ∧ players st2 = players st.
Proof.
  intros H1 H2. pose proof H1 as Hinv1.
  apply handle_toggle_ready_inv in Hinv1
    as [(-> & -> & _)|(pd & room & p & all & Hpd & Hroom & Hpl & Hall & Hgo)].
  { rewrite H1 in H2. by simplify_eq. }
  assert (players st1 = players st ∧
          heap st1 = <[pd_player pd:=toggle p]> (heap st) ∧
          is_Some (rooms st1 !! pd_room_id pd)) as (Hps1 & Hh1 & Hr1).
  { destruct (all && _).
    - destruct Hgo as (l0 & p0 & _ & _ & -> & _). simpl.
      rewrite lookup_insert_eq. eauto.
    - destruct Hgo as [-> _]. simpl. eauto. }
  apply handle_toggle_ready_inv in H2
    as [(-> & -> & Hnone)|(pd' & room' & p' & all' & Hpd' & _ & Hpl' & _ & Hgo')].
  { rewrite Hps1 in Hnone. specialize (Hnone _ Hpd). rewrite Hnone in Hr1.
    by destruct Hr1. }
  rewrite Hps1, Hpd in Hpd'. simplify_eq.
  rewrite Hh1 in Hpl'.
  rewrite list_lookup_insert_eq in Hpl' by (by eapply lookup_lt_Some).
  simplify_eq.
  assert (players st2 = players st1 ∧
          heap st2 = <[pd_player pd':=toggle (toggle p)]> (heap st1)) as [Hps2 Hh2].
  { destruct (all' && _).
    - by destruct Hgo' as (l0 & p0 & _ & _ & -> & _).
    - by destruct Hgo' as [-> _]. }
  split; [|congruence].
  rewrite Hh2, Hh1, list_insert_insert_eq.
  apply list_insert_id. rewrite Hpl. by destruct p as [? ? []].
Qed.

Lemma toggle_twice_witness :
  let st := after any_event two_ready in
  let st2 := after any_event (two_ready ++ [ToggleReady "A"; ToggleReady "A"]) in
  heap st2 = heap st ∧ players st2 = players st.
Proof.
  intros st st2.
  apply (toggle_twice "A" st (after any_event (two_ready ++ [ToggleReady "A"]))
           (default [] (snd <$> handle_toggle_ready "A" st))
           st2
           (default [] (snd <$> handle_toggle_ready "A"
                          (after any_event (two_ready ++ [ToggleReady "A"]))))).
  - by vm_compute.
  - by vm_compute.
Defined.

(** ** Who receives a broadcast *)

(** X13: a connection that leaves never receives its own [player_left]: the
    one event the handler emits goes to the Socket.IO room of the caller's
    room after the caller has left it, that is to the members the room had
    before, the caller excepted. *)
Theorem leaver_not_notified sid st st' out em :
  handle_leave_room sid st = Some (st', out) → em ∈ out →
  sid ∉ recipients em ∧
  ∃ pd, players st !! sid = Some pd ∧
        event_name (payload em) = "player_left" ∧
        target em = ToRoom (pd_room_id pd) ∧
        recipients em = members st (pd_room_id pd) ∖ {[ sid ]}.
Proof.
  intros Hleave Hin.
  apply handle_leave_room_inv in Hleave
    as [[-> ->]|(pd & room & ps & Hpd & _ & _ & _ & ->)].
  - by apply elem_of_nil in Hin.
  - apply list_elem_of_singleton in Hin as ->. simpl. split; [set_solver|].
    by exists pd.
Qed.

Lemma leaver_not_notified_witness :
  let st := after any_event two_ready in
  let em := mkEmit (player_left "A" (mkRoomInfo "r1" "Test" "classic" 1 2 playing))
                   (ToRoom "r1") {[ "B" ]} in
  "A" ∉ recipients em ∧
  ∃ pd, players st !! "A" = Some pd ∧
        event_name (payload em) = "player_left" ∧
        target em = ToRoom (pd_room_id pd) ∧
        recipients em = members st (pd_room_id pd) ∖ {[ "A" ]}.
Proof.
  intros st em.
  apply (leaver_not_notified "A" st (after any_event (two_ready ++ [LeaveRoom "A"]))
           [em] em).
  - by vm_compute.
  - apply list_elem_of_singleton. reflexivity.
Defined.

(** ** Player objects *)

(** X14: a request never changes the id or the name of a player object, and
    the ready flag of a player object changes only by a [toggle_ready] sent
    from the connection whose id the object carries. *)
Theorem ready_flag_owner e st st' out l p :
  reachable fresh_uuid st → step e st = Some (st', out) → heap st !! l = Some p →
  ∃ p', heap st' !! l = Some p' ∧
        player_id p' = player_id p ∧ player_name p' = player_name p ∧
        (ready p' ≠ ready p → e = ToggleReady (player_id p)).
Proof.
  intros Hreach Hstep Hl.
  pose proof (reachable_registry_resolves _ Hreach) as Hres.
  destruct e; simpl in Hstep.
  - simplify_eq.
    destruct (create_room_inv uuid now name maxp pw mode st) as [->|(n & _ & _ & ->)];
      by exists p.
  - unfold handle_connect in Hstep. simplify_eq. by exists p.
  - apply handle_join_room_inv in Hstep
      as [[-> _]|(room & ps & _ & _ & _ & -> & _ & _)]; [by exists p|].
    exists p. simpl. rewrite lookup_app_l by (by eapply lookup_lt_Some). done.
  - apply handle_leave_room_inv in Hstep
      as [[-> _]|(pd & room & ps & _ & _ & _ & -> & _)]; by exists p.
  - apply handle_toggle_ready_inv in Hstep
      as [[-> _]|(pd & room & p0 & all & Hpd & Hroom & Hpl & Hall & Hgo)];
      [by exists p|].
    assert (heap st' = <[pd_player pd:=toggle p0]> (heap st)) as ->.
    { destruct (all && _).
      - by destruct Hgo as (l0 & p1 & _ & _ & -> & _).
      - by destruct Hgo as [-> _]. }
    destruct (decide (l = pd_player pd)) as [->|Hne].
    + rewrite list_lookup_insert_eq by (by eapply lookup_lt_Some).
      rewrite Hpl in Hl. injection Hl as ->.
      exists (toggle p). split_and!; [done..|]. intros _.
      destruct (Hres _ _ Hpd) as (_ & p1 & _ & _ & Hp1 & <-). congruence.
    + rewrite list_lookup_insert_ne by done. by exists p.
Qed.

Lemma ready_flag_owner_witness :
  let st := after fresh_uuid [open_room "r1" 2 None; JoinRoom "A" "r1" None None;
                              JoinRoom "B" "r1" None None] in
  let st' := after fresh_uuid [open_room "r1" 2 None; JoinRoom "A" "r1" None None;
                               JoinRoom "B" "r1" None None; ToggleReady "B"] in
  let p := mkPlayer "B" "玩家-B" false in
  ∃ p', heap st' !! 1%nat = Some p' ∧
        player_id p' = player_id p ∧ player_name p' = player_name p ∧
        (ready p' ≠ ready p → ToggleReady "B" = ToggleReady (player_id p)).
Proof.
  intros st st' p.
  apply (ready_flag_owner (ToggleReady "B") st st'
           (default [] (snd <$> step (ToggleReady "B") st)) 1%nat p).
  - exists [open_room "r1" 2 None; JoinRoom "A" "r1" None None;
            JoinRoom "B" "r1" None None]. by vm_compute.
  - by vm_compute.
  - by vm_compute.
Defined.

(** X15: as long as no bound connection sends a join, a connection has at
    most one player record in a room: two entries of a room's player sequence
    with the same id are the same entry. *)
Theorem one_record_per_connection st rid room l1 l2 p1 p2 :
  reachable join_unbound st → rooms st !! rid = Some room →
  l1 ∈ room_players room → l2 ∈ room_players room →
  heap st !! l1 = Some p1 → heap st !! l2 = Some p2 →
  player_id p1 = player_id p2 → l1 = l2.
Proof.
  intros Hreach Hroom Hl1 Hl2 Hp1 Hp2 Hid.
  pose proof (reachable_members_registered _ Hreach) as Hreg.
  pose proof (Hreg _ _ _ _ Hroom Hl1 Hp1) as H1.
  pose proof (Hreg _ _ _ _ Hroom Hl2 Hp2) as H2.
  rewrite Hid in H1. rewrite H1 in H2. by simplify_eq.
Qed.

Lemma one_record_per_connection_witness :
  let st := after join_unbound [open_room "r1" 2 None; JoinRoom "A" "r1" None None;
                                LeaveRoom "A"; open_room "r2" 2 None;
                                JoinRoom "A" "r2" None None] in
  1%nat = 1%nat.
Proof.
  intros st.
  apply (one_record_per_connection st "r2"
           (mkRoom "r2" "Test" 2 None "classic" [1%nat] waiting 0 None) 1%nat 1%nat
           (mkPlayer "A" "玩家-A" false) (mkPlayer "A" "玩家-A" false)).
  - exists [open_room "r1" 2 None; JoinRoom "A" "r1" None None;
            LeaveRoom "A"; open_room "r2" 2 None; JoinRoom "A" "r2" None None].
    by vm_compute.
  - by vm_compute.
  - apply list_elem_of_singleton. reflexivity.
  - apply list_elem_of_singleton. reflexivity.
  - by vm_compute.
  - by vm_compute.
  - reflexivity.
Defined.

(** ** The room listing *)

Lemma elem_of_list_rooms (st : State) (s : RoomSummary) :
  s ∈ list_rooms st ↔
  ∃ rid room, rooms st !! rid = Some room ∧ status room = waiting ∧
              s = room_summary room.
Proof.
  unfold list_rooms. rewrite list_elem_of_fmap. split.
  - intros (room & -> & Hin). apply list_elem_of_filter in Hin as [Hwait Hin].
    apply list_elem_of_fmap in Hin as ([rid room'] & -> & Hin).
    apply elem_of_map_to_list in Hin. by exists rid, room'.
  - intros (rid & room & Hroom & Hwait & ->). exists room. split; [done|].
    apply list_elem_of_filter. split; [done|].
    apply list_elem_of_fmap. exists (rid, room). split; [done|].
    by apply elem_of_map_to_list.
Qed.

Lemma reachable_room_id (st : State) (rid : string) (room : Room) :
  reachable any_event st → rooms st !! rid = Some room → room_id room = rid.
Proof.
  intros Hreach. revert rid room. revert st Hreach.
  apply (reachable_invariant any_event
           (λ st, ∀ rid room, rooms st !! rid = Some room → room_id room = rid)).
  - intros rid room. simpl. by rewrite lookup_empty.
  - intros e st st' out _ IH Hstep rid room' Hroom'.
    destruct (step_room_cases _ _ _ _ _ _ Hstep Hroom')
      as [Hsame|[(room & ps & Hroom & -> & _)|[(room & p0 & Hroom & ->)
         |(now & n & maxp & pw & mode & _ & ->)]]]; simpl; eauto.
Qed.

(** X16: in every state reached from the empty lobby, [list_rooms] holds an
    entry exactly for the stored rooms whose status is [waiting]: an entry
    with id [rid] is listed iff the room stored under [rid] is waiting and the
    entry is that room's summary.  A room whose game has started is not
    listed. *)
Theorem list_rooms_waiting (st : State) (s : RoomSummary) :
  reachable any_event st →
  s ∈ list_rooms st ↔
  ∃ room, rooms st !! sum_id s = Some room ∧ status room = waiting ∧
          s = room_summary room.
Proof.
  intros Hreach. rewrite elem_of_list_rooms. split.
  - intros (rid & room & Hroom & Hwait & ->). exists room. simpl.
    by rewrite (reachable_room_id _ _ _ Hreach Hroom).
  - intros (room & Hroom & Hwait & ->). by eexists _, room.
Qed.

Lemma list_rooms_waiting_witness :
  let st := after any_event (two_ready ++ [open_room "r2" 4 (Some "pw")]) in
  let s := mkRoomSummary "r2" "Test" "classic" 0 4 true waiting in
  s ∈ list_rooms st ↔
  ∃ room, rooms st !! sum_id s = Some room ∧ status room = waiting ∧
          s = room_summary room.
Proof.
  intros st s. apply list_rooms_waiting.
  exists (two_ready ++ [open_room "r2" 4 (Some "pw")])%list. by vm_compute.
Defined.

(** X17: a room created under an unused id with a non-empty name is listed
    at once, with no player, the capacity, mode and password flag of the
    request (defaults: 2 players, mode "classic"), and the rooms listed before
    stay listed. *)
Theorem created_room_is_listed uuid now name maxp pw mode st :
  rooms st !! uuid = None → name ≠ "" →
  let st' := (create_room uuid now (Some name) maxp pw mode st).1 in
  mkRoomSummary uuid name (default "classic" mode) 0 (default 2%Z maxp)
                (bool_decide (pw ≠ None)) waiting ∈ list_rooms st' ∧
  ∀ s, s ∈ list_rooms st → s ∈ list_rooms st'.
Proof.
  intros Hfresh Hname st'.
  assert (rooms st' = <[uuid := Room_init uuid now name (default 2%Z maxp) pw
                                           (default "classic" mode)]> (rooms st))
    as Hrooms.
  { unfold st', create_room. by destruct (decide (name = "")). }
  split.
  - apply elem_of_list_rooms. eexists uuid, _. rewrite Hrooms, lookup_insert_eq.
    done.
  - intros s (rid & room & Hroom & Hwait & ->)%elem_of_list_rooms.
    apply elem_of_list_rooms. exists rid, room. rewrite Hrooms.
    rewrite lookup_insert_ne; [done|]. intros ->. congruence.
Qed.

Lemma created_room_is_listed_witness :
  let st := after any_event [open_room "r1" 2 None] in
  let st' := (create_room "r2" 7 (Some "Second") None (Some "pw") (Some "team") st).1 in
  mkRoomSummary "r2" "Second" "team" 0 2 true waiting ∈ list_rooms st' ∧
  ∀ s, s ∈ list_rooms st → s ∈ list_rooms st'.
Proof.
  intros st.
  apply (created_room_is_listed "r2" 7 "Second" None (Some "pw") (Some "team") st).
  - by vm_compute.
  - discriminate.
Defined.

(** ** Joining and leaving *)

Lemma with_players_id (room : Room) (ls : list nat) :
  with_players (with_players room ls) (room_players room) = room.
Proof. by destruct room. Qed.

(** Removing the joiner from the sequence it was appended to gives back the
    old sequence, when no older entry carries the joiner's id. *)
Lemma remove_sid_joined (h : list Player) (sid : string) (x : Player) (old : list nat) :
  (∀ l0, l0 ∈ old → ∃ p0, h !! l0 = Some p0 ∧ player_id p0 ≠ sid) →
  player_id x = sid →
  remove_sid (h ++ [x])%list sid (old ++ [length h])%list = Some old.
Proof.
  intros Hold Hx. induction old as [|l0 old IH]; simpl.
  - rewrite list_lookup_middle by done. simpl. by rewrite decide_True.
  - destruct (Hold l0) as (p0 & Hp0 & Hne); [by left|].
    rewrite lookup_app_l by (by eapply lookup_lt_Some). rewrite Hp0. simpl.
    rewrite IH; [|intros l1 Hl1; apply Hold; by right]. simpl.
    by rewrite decide_False.
Qed.


Lemma deref_all_snoc (h : list Player) (x : Player) (ls : list nat) (old : list Player) :
  deref_all h ls = Some old →
  deref_all (h ++ [x])%list (ls ++ [length h])%list = Some (old ++ [x])%list.
Proof.
  unfold deref_all. rewrite !mapM_Some. intros Hold. apply Forall2_app.
  - eapply Forall2_impl; [exact Hold|]. simpl. intros l p Hl.
    rewrite lookup_app_l; [done|]. by eapply lookup_lt_Some.
  - constructor; [|constructor]. by apply list_lookup_middle.
Qed.

(** X18: in a well-formed state, when a connection that is not bound joins
    a room that holds no player record with its id and then leaves, the join
    is undone: the registry and the room store are as before, except that a
    room that had no player before the join is deleted by the leave; the
    room's Socket.IO membership is the old one without the caller. *)
Theorem join_then_leave sid rid name pw st room :
  wf st → players st !! sid = None → rooms st !! rid = Some room →
  ¬ in_room st sid room →
  password_rejected (password room) pw = false →
  (Z.of_nat (length (room_players room)) < max_players room)%Z →
  ∃ st1 out1 st2 out2,
    handle_join_room sid rid name pw st = Some (st1, out1) ∧
    handle_leave_room sid st1 = Some (st2, out2) ∧
    players st2 = players st ∧
    rooms st2 = (if decide (room_players room = []) then delete rid (rooms st)
                 else rooms st) ∧
    members st2 rid = members st rid ∖ {[ sid ]}.
Proof.
  intros Hwf Hunbound Hroom Hnorec Hpw Hlt.
  destruct (handle_join_room_accepts sid rid name pw st room Hwf Hroom Hpw Hlt)
    as (st1 & ps & Hjoin & Hroom1 & Hpd1).
  exists st1. eexists. pose proof Hjoin as Hinv. simpl in Hinv.
  apply handle_join_room_inv in Hinv
    as [[-> _]|(room0 & ps0 & Hroom0 & _ & _ & Hst1 & _ & _)]; [congruence|].
  rewrite Hroom in Hroom0. injection Hroom0 as <-. subst st1.
  simpl in Hroom1, Hpd1.
  assert (remove_sid (heap st ++ [new_player sid name])%list sid
                     (room_players room ++ [length (heap st)])%list
          = Some (room_players room)) as Hrem.
  { apply remove_sid_joined; [|done].
    intros l0 Hl0. destruct Hwf as [Hwr _].
    destruct (lookup_lt_is_Some_2 _ _ (Hwr _ _ _ Hroom Hl0)) as [p0 Hp0].
    exists p0. split; [done|]. intros Hid. apply Hnorec. by exists l0, p0. }
  unfold handle_leave_room. simpl. rewrite Hpd1. simpl. rewrite Hroom1. simpl.
  rewrite Hrem. simpl.
  assert (∀ X : gset string, ({[sid]} ∪ X) ∖ {[sid]} = X ∖ {[sid]}) as Hset
    by set_solver.
  destruct (decide (length (room_players room) = 0)) as [Hz|Hnz].
  - apply length_zero_iff_nil in Hz. rewrite (decide_True _ _ Hz).
    eexists _, _. split_and!; [exact Hjoin|done|..]; simpl.
    + rewrite delete_insert_eq. by apply delete_id.
    + by rewrite !delete_insert_eq.
    + unfold members, set_rooms, set_players, sio_leave in *. simpl.
      unfold members. simpl. rewrite !lookup_insert_eq. simpl. by apply Hset.
  - rewrite decide_False by (intros Hz; by rewrite Hz in Hnz).
    eexists _, _. split_and!; [exact Hjoin|done|..]; simpl.
    + rewrite delete_insert_eq. by apply delete_id.
    + rewrite insert_insert_eq. apply insert_id. rewrite Hroom. f_equal.
      by rewrite with_players_id.
    + unfold members, set_rooms, set_players, sio_leave in *. simpl.
      unfold members. simpl. rewrite !lookup_insert_eq. simpl. by apply Hset.
Qed.

Lemma join_then_leave_witness :
  let st := after any_event [open_room "r1" 2 None; JoinRoom "A" "r1" None None] in
  let room := mkRoom "r1" "Test" 2 None "classic" [0%nat] waiting 0 None in
  ∃ st1 out1 st2 out2,
    handle_join_room "B" "r1" None None st = Some (st1, out1) ∧
    handle_leave_room "B" st1 = Some (st2, out2) ∧
    players st2 = players st ∧
    rooms st2 = (if decide (room_players room = []) then delete "r1" (rooms st)
                 else rooms st) ∧
    members st2 "r1" = members st "r1" ∖ {[ "B" ]}.
Proof.
  intros st room. apply (join_then_leave "B" "r1" None None st room).
  - apply (reachable_wf any_event).
    exists [open_room "r1" 2 None; JoinRoom "A" "r1" None None]. by vm_compute.
  - by vm_compute.
  - by vm_compute.
  - intros (l & p & Hl & Hp & Hid). simpl in Hl.
    apply list_elem_of_singleton in Hl as ->.
    assert (player_id <$> heap st !! 0%nat = Some "A") as H0 by (by vm_compute).
    rewrite Hp in H0. simpl in H0. congruence.
  - reflexivity.
  - simpl. lia.
Defined.



(** X20: on an accepted join, [room_joined] carries the players that were in
    the room, in their order, followed by the joiner (not ready), and the
    [current_players] count of both [room_joined] and [player_joined] is the
    length of that list. *)
Theorem room_joined_lists_players sid rid name pw st room :
  wf st → rooms st !! rid = Some room →
  password_rejected (password room) pw = false →
  (Z.of_nat (length (room_players room)) < max_players room)%Z →
  ∃ st' old info,
    deref_all (heap st) (room_players room) = Some old ∧
    handle_join_room sid rid name pw st =
      Some (st', [mkEmit (player_joined (new_player sid name) info)
                         (ToRoom rid) ({[ sid ]} ∪ members st rid);
                  mkEmit (room_joined info (old ++ [new_player sid name])%list)
                         ToCaller {[ sid ]}]) ∧
    ready (new_player sid name) = false ∧
    info_current_players info = length (old ++ [new_player sid name])%list ∧
    info_status info = status room.
Proof.
  intros Hwf Hroom Hpw Hlt.
  destruct (deref_all_total (heap st) (room_players room)) as [old Hold];
    [by eapply wf_locations|].
  destruct (handle_join_room_accepts sid rid name pw st room Hwf Hroom Hpw Hlt)
    as (st' & ps & Hjoin & _).
  pose proof Hjoin as Hinv. simpl in Hinv.
  apply handle_join_room_inv in Hinv
    as [[_ [msg [=]]]|(room0 & ps0 & Hroom0 & _ & _ & -> & Hps0 & Hout)].
  rewrite Hroom in Hroom0. injection Hroom0 as <-.
  simpl in Hps0. rewrite (deref_all_snoc _ _ _ _ Hold) in Hps0.
  injection Hps0 as <-. injection Hout as _ Hps. subst ps.
  eexists _, old, _. split; [done|]. split; [exact Hjoin|]. simpl.
  split_and!; [done| |done].
  unfold deref_all in Hold. apply mapM_Some, Forall2_length in Hold.
  rewrite !length_app. simpl. lia.
Qed.

Lemma room_joined_lists_players_witness :
  let st := after any_event [open_room "r1" 2 None; JoinRoom "A" "r1" None None;
                             ToggleReady "A"] in
  let room := mkRoom "r1" "Test" 2 None "classic" [0%nat] waiting 0 None in
  ∃ st' old info,
    deref_all (heap st) (room_players room) = Some old ∧
    handle_join_room "B" "r1" (Some "Bea") None st =
      Some (st', [mkEmit (player_joined (new_player "B" (Some "Bea")) info)
                         (ToRoom "r1") ({[ "B" ]} ∪ members st "r1");
                  mkEmit (room_joined info (old ++ [new_player "B" (Some "Bea")])%list)
                         ToCaller {[ "B" ]}]) ∧
    ready (new_player "B" (Some "Bea")) = false ∧
    info_current_players info = length (old ++ [new_player "B" (Some "Bea")])%list ∧
    info_status info = status room.
Proof.
  intros st room. apply (room_joined_lists_players "B" "r1" (Some "Bea") None st room).
  - apply (reachable_wf any_event).
    exists [open_room "r1" 2 None; JoinRoom "A" "r1" None None; ToggleReady "A"].
    by vm_compute.
  - by vm_compute.
  - reflexivity.
  - simpl. lia.
Defined.

(** ** More on the guards of a join and on readiness *)

(** X21: for a stored room, a join is answered with the wrong-password error
    (and nothing else happens) exactly when the room's password is a non-empty
    string that differs from the supplied one; the test comes before the
    capacity test, so it is the answer for a full room too. *)
Theorem password_error_iff sid rid name pw st room :
  rooms st !! rid = Some room →
  handle_join_room sid rid name pw st
    = Some (st, [mkEmit (error "房间密码错误") ToCaller {[ sid ]}])
  ↔ ∃ secret, password room = Some secret ∧ secret ≠ "" ∧ pw ≠ Some secret.
Proof.
  intros Hroom. unfold handle_join_room. rewrite Hroom. unfold password_rejected.
  destruct (password room) as [secret|] eqn:Hpw.
  - destruct (decide (secret = "")) as [->|Hne].
    + split; [|intros (s & [= <-] & ? & _); done].
      case_bool_decide; [intros [=]|]. simpl.
      destruct (deref_all _ _); simpl; intros [=].
    + case_bool_decide as Hdiff.
      * split; [|done]. intros _. exists secret. split_and!; [done..|congruence].
      * split; [|intros (s & [= <-] & _ & ?); congruence].
        case_bool_decide; [intros [=]|]. simpl.
        destruct (deref_all _ _); simpl; intros [=].
  - split; [|intros (s & [=] & _)].
    case_bool_decide; [intros [=]|]. simpl.
    destruct (deref_all _ _); simpl; intros [=].
Qed.

Lemma password_error_iff_witness :
  let st := after any_event [open_room "r1" 1 (Some "pw"); JoinRoom "A" "r1" None (Some "pw")] in
  handle_join_room "B" "r1" None None st
    = Some (st, [mkEmit (error "房间密码错误") ToCaller {[ "B" ]}])
  ↔ ∃ secret, Some "pw" = Some secret ∧ secret ≠ "" ∧ None ≠ Some secret.
Proof.
  intros st.
  apply (password_error_iff "B" "r1" None None st
           (mkRoom "r1" "Test" 1 (Some "pw") "classic" [0%nat] waiting 0 None)).
  by vm_compute.
Defined.

(** X22: a [toggle_ready] from a bound connection negates the ready flag of
    the caller's player object and of no other, and first broadcasts
    [player_ready] with the new value and the room summary as it is before
    any start of the game. *)
Theorem toggle_flips_caller sid st pd room p :
  wf st → players st !! sid = Some pd → rooms st !! pd_room_id pd = Some room →
  heap st !! pd_player pd = Some p →
  ∃ st' out rest,
    handle_toggle_ready sid st = Some (st', out) ∧
    heap st' = <[ pd_player pd := toggle p ]> (heap st) ∧
    out = mkEmit (player_ready sid (negb (ready p)) (get_room_info room))
                 (ToRoom (pd_room_id pd)) (members st (pd_room_id pd)) :: rest.
Proof.
  intros Hwf Hpd Hroom Hp.
  destruct (handle_toggle_ready_total sid st Hwf) as [[st' out] Hstep].
  exists st', out. pose proof Hstep as Hinv.
  apply handle_toggle_ready_inv in Hinv
    as [(_ & _ & Hnone)|(pd0 & room0 & p0 & all & Hpd0 & Hroom0 & Hpl & Hall & Hgo)].
  { rewrite (Hnone _ Hpd) in Hroom. done. }
  rewrite Hpd in Hpd0. injection Hpd0 as <-.
  rewrite Hroom in Hroom0. injection Hroom0 as <-.
  rewrite Hp in Hpl. injection Hpl as <-.
  destruct (all && _).
  - destruct Hgo as (l0 & p1 & _ & _ & -> & ->). by eexists.
  - destruct Hgo as [-> ->]. by eexists.
Qed.

Lemma toggle_flips_caller_witness :
  let st := after any_event [open_room "r1" 2 None; JoinRoom "A" "r1" None None] in
  let room := mkRoom "r1" "Test" 2 None "classic" [0%nat] waiting 0 None in
  let p := mkPlayer "A" "玩家-A" false in
  ∃ st' out rest,
    handle_toggle_ready "A" st = Some (st', out) ∧
    heap st' = <[ 0%nat := toggle p ]> (heap st) ∧
    out = mkEmit (player_ready "A" (negb (ready p)) (get_room_info room))
                 (ToRoom "r1") (members st "r1") :: rest.
Proof.
  intros st room p.
  apply (toggle_flips_caller "A" st (mkPlayerData "r1" 0) room p).
  - apply (reachable_wf any_event).
    exists [open_room "r1" 2 None; JoinRoom "A" "r1" None None]. by vm_compute.
  - by vm_compute.
  - by vm_compute.
  - by vm_compute.
Defined.

(** X23: the status of a stored room changes only by a [toggle_ready] sent
    from a connection bound to that room, and then to [playing]: creating
    another room, joining and leaving never change a status. *)
Theorem only_toggle_changes_status e st st' out rid room room' :
  fresh_uuid e st = true → step e st = Some (st', out) →
  rooms st !! rid = Some room → rooms st' !! rid = Some room' →
  status room' ≠ status room →
  ∃ sid, e = ToggleReady sid ∧ pd_room_id <$> players st !! sid = Some rid ∧
         status room' = playing.
Proof.
  intros Hok Hstep Hroom Hroom' Hdiff. destruct e; simpl in Hstep.
  - exfalso. simplify_eq. simpl in Hok. apply bool_decide_eq_true in Hok.
    destruct (create_room_inv uuid now name maxp pw mode st) as [Heq|(n & _ & _ & Heq)];
      rewrite Heq in Hroom'; [congruence|simpl in Hroom'].
    destruct (decide (rid = uuid)) as [->|Hne]; [congruence|].
    rewrite lookup_insert_ne in Hroom' by done. congruence.
  - exfalso. unfold handle_connect in Hstep. by simplify_eq.
  - exfalso. apply handle_join_room_inv in Hstep
      as [[-> _]|(room0 & ps & Hroom0 & _ & _ & -> & _ & _)]; [congruence|].
    simpl in Hroom'. destruct (decide (rid = rid0)) as [->|Hne].
    + rewrite lookup_insert_eq in Hroom'. by simplify_eq.
    + rewrite lookup_insert_ne in Hroom' by done. congruence.
  - exfalso. apply handle_leave_room_inv in Hstep
      as [[-> _]|(pd & room0 & ps & Hpd & Hroom0 & Hps & -> & _)]; [congruence|].
    simpl in Hroom'. destruct (decide (rid = pd_room_id pd)) as [->|Hne].
    + destruct (decide (ps = [])); [by rewrite lookup_delete_eq in Hroom'|].
      rewrite lookup_insert_eq in Hroom'. by simplify_eq.
    + destruct (decide (ps = []));
        [rewrite lookup_delete_ne in Hroom' by done
        |rewrite lookup_insert_ne in Hroom' by done]; congruence.
  - apply handle_toggle_ready_inv in Hstep
      as [[-> _]|(pd & room0 & p & all & Hpd & Hroom0 & Hpl & Hall & Hgo)];
      [congruence|].
    destruct (all && _).
    + destruct Hgo as (l0 & p0 & _ & _ & -> & _). simpl in Hroom'.
      destruct (decide (rid = pd_room_id pd)) as [->|Hne].
      * rewrite lookup_insert_eq in Hroom'. simplify_eq.
        exists sid. rewrite Hpd. done.
      * rewrite lookup_insert_ne in Hroom' by done. congruence.
    + destruct Hgo as [-> _]. simpl in Hroom'. congruence.
Qed.

Lemma only_toggle_changes_status_witness :
  let es := [open_room "r1" 2 None; JoinRoom "A" "r1" None None;
             JoinRoom "B" "r1" None None; ToggleReady "A"] in
  let st := after fresh_uuid es in
  let room' := mkRoom "r1" "Test" 2 None "classic" [0%nat; 1%nat] playing 0
                      (Some (mkGameState 0 "A" (mkBoard "classic" "initial"))) in
  ∃ sid, ToggleReady "B" = ToggleReady sid ∧
         pd_room_id <$> players st !! sid = Some "r1" ∧ status room' = playing.
Proof.
  intros es st room'.
  apply (only_toggle_changes_status (ToggleReady "B") st
           (after fresh_uuid (es ++ [ToggleReady "B"]))
           (default [] (snd <$> step (ToggleReady "B") st)) "r1"
           (mkRoom "r1" "Test" 2 None "classic" [0%nat; 1%nat] waiting 0 None) room').
  - reflexivity.
  - by vm_compute.
  - by vm_compute.
  - by vm_compute.
  - discriminate.
Defined.
